(** * ODRL policy validation and conflict taxonomy: a shallow embedding

    The development follows three source files of the repository:

    - [agents/reasoner/conflict_types.py]: the [ConflictType] enumeration and
      the [CONFLICT_STRATEGIES] table ([Module ConflictTypes]);
    - [agents/validator/odrl_validation_tool.py]: issues, reports, the operand
      registry, the three SHACL validators and [ODRLValidationTool]
      ([Module ValidationTool]);
    - [agents/validator/validator_agent.py]: [ValidatorAgent] with [validate],
      [regenerate] and the [validate_and_regenerate] loop
      ([Module Agent]).

    Python [str] is [string], the bytes of the text's UTF-8 encoding; a
    [dict] with string keys is a [gmap string _]; a [dict] whose insertion
    order is observed is an association list; a [set] is the list of its
    members with the iteration order as a parameter; [int] is [Z].  The
    SHACL engine (rdflib and pyshacl), the language model and the
    clock are outside the repository: they are the fields of the class
    [Collaborators], functions over an abstract state of the outside world. *)

From Stdlib Require Import ZArith Lia.
From stdpp Require Import base option list gmap strings pretty sorting.

(** ** Python string helpers *)

Module PyStr.

(** The double-quote character (code 34). *)
Definition dquote : string := String (Ascii.ascii_of_nat 34) EmptyString.

(** The newline character (code 10). *)
Definition nl : string := String (Ascii.ascii_of_nat 10) EmptyString.

(** A text is held as the bytes of its UTF-8 encoding.  White space is what
    [str.isspace], [str.strip] and the class [\s] of [re] take for it on a
    [str]: the code points U+0009 to U+000D and U+001C to U+0020 (one byte
    each), U+0085 and U+00A0 (the bytes 194 133 and 194 160), U+1680
    (225 154 128), U+2000 to U+200A (226 128 128 to 226 128 138), U+2028,
    U+2029 and U+202F (226 128 168, 226 128 169, 226 128 175), U+205F
    (226 129 159) and U+3000 (227 128 128).  [space_width s] is the number
    of bytes of the white-space character that [s] starts with, and 0 when
    it starts with none. *)
Definition space_width (s : string) : nat :=
  match s with
  | EmptyString => 0
  | String c1 s1 =>
      let n1 := Ascii.nat_of_ascii c1 in
      if (((9 <=? n1) && (n1 <=? 13)) || ((28 <=? n1) && (n1 <=? 32)))%nat then 1
      else if (n1 =? 194)%nat then
        match s1 with
        | String c2 _ =>
            let n2 := Ascii.nat_of_ascii c2 in
            if ((n2 =? 133) || (n2 =? 160))%nat then 2 else 0
        | EmptyString => 0
        end
      else if ((n1 =? 225) || (n1 =? 226) || (n1 =? 227))%nat then
        match s1 with
        | String c2 (String c3 _) =>
            let n2 := Ascii.nat_of_ascii c2 in
            let n3 := Ascii.nat_of_ascii c3 in
            if (((n1 =? 225) && (n2 =? 154) && (n3 =? 128))
                || ((n1 =? 226) && (n2 =? 128)
                    && (((128 <=? n3) && (n3 <=? 138))
                        || (n3 =? 168) || (n3 =? 169) || (n3 =? 175)))
                || ((n1 =? 226) && (n2 =? 129) && (n3 =? 159))
                || ((n1 =? 227) && (n2 =? 128) && (n3 =? 128)))%nat
            then 3 else 0
        | _ => 0
        end
      else 0
  end.

(** The bytes still to pass over at the head of [s]: what is left of a
    character entered before ([skip]), or else the white-space character
    that starts here. *)
Definition space_here (skip : nat) (s : string) : nat :=
  match skip with
  | O => space_width s
  | S _ => skip
  end.

(** [sub in s] for a non-empty [sub]. *)
Definition contains (sub s : string) : bool :=
  match String.index 0 sub s with Some _ => true | None => false end.

(** [s.lstrip()]: the white-space characters at the front are passed over,
    byte by byte. *)
Fixpoint lstrip_scan (skip : nat) (s : string) : string :=
  match s with
  | EmptyString => EmptyString
  | String _ s' =>
      match space_here skip s with
      | S k => lstrip_scan k s'
      | O => s
      end
  end.

Definition lstrip (s : string) : string := lstrip_scan 0 s.

(** The text from here on is white space only. *)
Fixpoint all_space (skip : nat) (s : string) : bool :=
  match s with
  | EmptyString => match skip with O => true | S _ => false end
  | String _ s' =>
      match space_here skip s with
      | S k => all_space k s'
      | O => false
      end
  end.

(** [s.rstrip()]: the text is cut where what follows is white space
    only. *)
Fixpoint rstrip (s : string) : string :=
  match s with
  | EmptyString => EmptyString
  | String c s' => if all_space 0 s then EmptyString else String c (rstrip s')
  end.

(** [s.strip()]. *)
Definition strip (s : string) : string := rstrip (lstrip s).

(** [s.split(sep)] for a non-empty [sep]: the scan goes left to right, [skip]
    counts the characters of a separator still to pass over and [cur] holds
    the piece read so far, last character first. *)
Fixpoint split_scan (sep : string) (skip : nat) (cur : list Ascii.ascii) (s : string)
  : list string :=
  match s with
  | EmptyString => [String.string_of_list_ascii (rev cur)]
  | String c s' =>
      match skip with
      | S k => split_scan sep k cur s'
      | O =>
          if String.prefix sep s
          then String.string_of_list_ascii (rev cur) :: split_scan sep (String.length sep - 1) [] s'
          else split_scan sep 0 (c :: cur) s'
      end
  end.

Definition split (sep s : string) : list string := split_scan sep 0 [] s.

(** [l[-1]] for a list that [split] returned (never empty). *)
Definition last_piece (l : list string) : string := List.last l EmptyString.

(** [sep.join(l)]. *)
Definition join (sep : string) (l : list string) : string := String.concat sep l.

(** [re.sub(fence + r'\s*', '', s)] for a literal, non-empty [fence]: every
    occurrence of [fence], together with the white space that follows it, is
    removed.  [skip] counts the characters of a matched fence still to drop;
    [ws] says that the scan stands in the white space after a fence. *)
Fixpoint sub_fence (fence : string) (skip : nat) (ws : bool) (s : string) : string :=
  match s with
  | EmptyString => EmptyString
  | String c s' =>
      match skip with
      | S k => sub_fence fence k true s'
      | O =>
          if String.prefix fence s then sub_fence fence (String.length fence - 1) true s'
          else match (if ws then space_width s else 0) with
               | S k => sub_fence fence k true s'
               | O => String c (sub_fence fence 0 false s')
               end
      end
  end.

End PyStr.

(** ** agents/reasoner/conflict_types.py *)

Module ConflictTypes.

(** [class ConflictType(str, Enum)]: fourteen members, in declaration order. *)
Inductive ConflictType : Set :=
  | VAGUE_BROAD | UNMEASURABLE
  | SPATIAL_HIERARCHY | SPATIAL_OVERLAP
  | TEMPORAL_EXPIRED | TEMPORAL_OVERLAP | TEMPORAL_IMPOSSIBLE
  | ACTION_HIERARCHY | ACTION_SUBSUMPTION | ACTION_CONFLICT
  | CIRCULAR_DEPENDENCY | WORKFLOW_CYCLE
  | ROLE_HIERARCHY | PARTY_INCONSISTENCY.

#[global] Instance ConflictType_eq_dec : EqDecision ConflictType.
Proof. solve_decision. Defined.

(** The [.value] of each member. *)
Definition value (c : ConflictType) : string :=
  match c with
  | VAGUE_BROAD => "vague_and_overly_broad"
  | UNMEASURABLE => "unmeasurable_terms"
  | SPATIAL_HIERARCHY => "spatial_hierarchy_conflict"
  | SPATIAL_OVERLAP => "spatial_overlap_conflict"
  | TEMPORAL_EXPIRED => "temporal_expired_policy"
  | TEMPORAL_OVERLAP => "temporal_overlap_conflict"
  | TEMPORAL_IMPOSSIBLE => "temporal_impossible_sequence"
  | ACTION_HIERARCHY => "action_hierarchy_conflict"
  | ACTION_SUBSUMPTION => "action_subsumption_conflict"
  | ACTION_CONFLICT => "action_conflict"
  | CIRCULAR_DEPENDENCY => "circular_approval_dependency"
  | WORKFLOW_CYCLE => "workflow_cycle_conflict"
  | ROLE_HIERARCHY => "role_hierarchy_conflict"
  | PARTY_INCONSISTENCY => "party_specification_inconsistency"
  end.

(** [list(ConflictType)]: iteration over the enumeration. *)
Definition members : list ConflictType :=
  [ VAGUE_BROAD; UNMEASURABLE; SPATIAL_HIERARCHY; SPATIAL_OVERLAP;
    TEMPORAL_EXPIRED; TEMPORAL_OVERLAP; TEMPORAL_IMPOSSIBLE;
    ACTION_HIERARCHY; ACTION_SUBSUMPTION; ACTION_CONFLICT;
    CIRCULAR_DEPENDENCY; WORKFLOW_CYCLE; ROLE_HIERARCHY; PARTY_INCONSISTENCY ].

(** A value of a structural pattern ([Dict[str, Any]]): the table only uses
    strings and [True]. *)
Inductive pattern_value : Set :=
  | PStr (s : string)
  | PBool (b : bool).

#[global] Instance pattern_value_eq_dec : EqDecision pattern_value.
Proof. solve_decision. Defined.

(** [class ConflictDetectionStrategy(BaseModel)]. *)
Record ConflictDetectionStrategy : Type := {
  conflict_type : ConflictType;
  detection_order : Z;
  requires_ontology : bool;
  requires_graph_analysis : bool;
  keyword_patterns : list string;
  structural_patterns : list (gmap string pattern_value);
  resolution_principle : string;
  default_action : string
}.

(** [CONFLICT_STRATEGIES], entry by entry; a field the source leaves out has
    the default of the class ([False], [[]]). *)
Definition CONFLICT_STRATEGIES : list ConflictDetectionStrategy :=
  [ {| conflict_type := UNMEASURABLE;
       detection_order := 1;
       requires_ontology := false;
       requires_graph_analysis := false;
       keyword_patterns :=
         [ "urgent"; "soon"; "later"; "promptly"; "quickly";
           "responsibly"; "appropriately"; "properly";
           "when necessary"; "if important"; "as needed";
           "everyone"; "anyone"; "nobody" ];
       structural_patterns := [];
       resolution_principle := "reject_with_measurable_alternative";
       default_action := "reject" |};
    {| conflict_type := VAGUE_BROAD;
       detection_order := 2;
       requires_ontology := false;
       requires_graph_analysis := false;
       keyword_patterns :=
         [ "everything"; "anything"; "all data"; "any purpose";
           "everyone can access everything";
           "nobody can do anything" ];
       structural_patterns :=
         [ {[ "actors" := PStr "universal_quantifier";
              "assets" := PStr "universal_quantifier" ]};
           {[ "actors" := PStr "unspecified";
              "actions" := PStr "unspecified" ]} ];
       resolution_principle := "require_specification";
       default_action := "reject" |};
    {| conflict_type := TEMPORAL_EXPIRED;
       detection_order := 3;
       requires_ontology := false;
       requires_graph_analysis := false;
       keyword_patterns := [];
       structural_patterns :=
         [ {[ "constraint_type" := PStr "temporal";
              "end_date" := PStr "before_current_date" ]} ];
       resolution_principle := "flag_as_inactive";
       default_action := "reject" |};
    {| conflict_type := TEMPORAL_OVERLAP;
       detection_order := 4;
       requires_ontology := false;
       requires_graph_analysis := false;
       keyword_patterns := [];
       structural_patterns :=
         [ {[ "overlapping_intervals" := PBool true;
              "contradictory_actions" := PBool true ]} ];
       resolution_principle := "specific_over_general";
       default_action := "reject" |};
    {| conflict_type := SPATIAL_HIERARCHY;
       detection_order := 5;
       requires_ontology := true;
       requires_graph_analysis := false;
       keyword_patterns := [];
       structural_patterns :=
         [ {[ "narrow_scope" := PStr "permitted";
              "broad_scope" := PStr "prohibited";
              "containment" := PBool true ]} ];
       resolution_principle := "specific_over_general";
       default_action := "reject" |};
    {| conflict_type := ACTION_HIERARCHY;
       detection_order := 6;
       requires_ontology := true;
       requires_graph_analysis := false;
       keyword_patterns := [];
       structural_patterns :=
         [ {[ "parent_action" := PStr "permitted";
              "child_action" := PStr "prohibited" ]};
           {[ "action_subsumption" := PBool true ]} ];
       resolution_principle := "prohibit_on_conflict";
       default_action := "reject" |};
    {| conflict_type := ROLE_HIERARCHY;
       detection_order := 7;
       requires_ontology := true;
       requires_graph_analysis := false;
       keyword_patterns := [];
       structural_patterns :=
         [ {[ "broader_role" := PStr "required";
              "narrower_role" := PStr "prohibited";
              "role_containment" := PBool true ]} ];
       resolution_principle := "apply_role_hierarchy";
       default_action := "reject" |};
    {| conflict_type := CIRCULAR_DEPENDENCY;
       detection_order := 8;
       requires_ontology := false;
       requires_graph_analysis := true;
       keyword_patterns := [];
       structural_patterns :=
         [ {[ "dependency_chain" := PStr "contains_cycle" ]} ];
       resolution_principle := "break_cycle_at_weakest_link";
       default_action := "reject" |} ].

(** The entries of a table for one conflict type:
    [[s for s in table if s.conflict_type == c]]. *)
Definition strategies_for (table : list ConflictDetectionStrategy) (c : ConflictType)
  : list ConflictDetectionStrategy :=
  filter (fun s => conflict_type s = c) table.

(** The first statement of [get_detection_prompt_for_conflict_type]:
    [next(s for s in CONFLICT_STRATEGIES if s.conflict_type == conflict_type)].
    [None] stands for the [StopIteration] that [next] raises when no entry
    has the type. *)
Definition strategy_lookup (c : ConflictType) : option ConflictDetectionStrategy :=
  head (strategies_for CONFLICT_STRATEGIES c).

(** *** Classification of a conflict signal *)

(** Modelled from the spec: the repository holds the strategy table but no
    function that classifies a conflict signal (the reasoner asks the language
    model for the category).  The spec's [classify] takes a structured signal
    of keyword hits and structural predicate matches, scans the strategies in
    ascending priority order and returns the type of the first one whose
    trigger signals the input satisfies; with no match it fails with
    [NoMatchingStrategy]. *)
Record ConflictSignal : Type := {
  signal_keywords : list string;
  signal_structures : list (gmap string pattern_value)
}.

(** Modelled from the spec: a strategy's trigger is satisfied when a keyword
    of the signal is one of its keyword patterns or a structure of the signal
    is one of its structural patterns. *)
Definition triggered (sig : ConflictSignal) (s : ConflictDetectionStrategy) : bool :=
  existsb (fun k => bool_decide (k ∈ keyword_patterns s)) (signal_keywords sig)
  || existsb (fun p => bool_decide (p ∈ structural_patterns s)) (signal_structures sig).

(** Ascending priority: the lower [detection_order] comes first (the source
    comments the field with: lower = check first). *)
Definition before (a b : ConflictDetectionStrategy) : Prop :=
  (detection_order a <= detection_order b)%Z.

#[global] Instance before_dec : RelDecision before.
Proof. intros a b. unfold before. apply _. Defined.

(** Modelled from the spec: the result of [classify], a conflict type or
    the condition [NoMatchingStrategy]. *)
Inductive classification : Type :=
  | Classified (c : ConflictType)
  | NoMatchingStrategy.

(** Modelled from the spec: the scan in ascending priority order, first
    match wins. *)
Definition classify_with (table : list ConflictDetectionStrategy) (sig : ConflictSignal)
  : classification :=
  match List.find (triggered sig) (merge_sort before table) with
  | Some s => Classified (conflict_type s)
  | None => NoMatchingStrategy
  end.

(** Modelled from the spec: [classify] over the table of the source. *)
Definition classify : ConflictSignal -> classification :=
  classify_with CONFLICT_STRATEGIES.

End ConflictTypes.

(** ** agents/reasoner/conflict_types.py: the prompt of a conflict type *)

Module ConflictPrompts.
Import PyStr ConflictTypes.

(** [ConflictType(text)], the lookup of a member by its value that
    [Reasoner._parse_response] does on the category of an issue.  [None]
    stands for the [ValueError] of a text that is no member's value. *)
Definition ConflictType_of_value (text : string) : option ConflictType :=
  List.find (fun c => String.eqb (value c) text) members.

(** [RESOLUTION_PRINCIPLES].  Characters outside ASCII stand as their UTF-8
    bytes. *)
Definition RESOLUTION_PRINCIPLES : gmap string string :=
  list_to_map
    [ ("specific_over_general",
       "
When two policies conflict, the more specific policy takes precedence:
- Narrower geographic scope > Broader scope
- Shorter time window > Longer window
- Specific actors > General groups
Example: " +:+ dquote +:+ "Germany only" +:+ dquote +:+ " overrides " +:+ dquote +:+ "All EU countries" +:+ dquote +:+ "
");
      ("prohibit_on_ambiguity",
       "
When temporal or spatial constraints create ambiguity, default to prohibition:
- Overlapping time windows with contradictory rules → Prohibit during overlap
- Conflicting geographic scopes → Prohibit in contested region
Safety principle: Better to block than allow incorrectly
");
      ("reject_with_measurable_alternative",
       "
Unmeasurable terms must be replaced with objective criteria:
- " +:+ dquote +:+ "urgent" +:+ dquote +:+ " → " +:+ dquote +:+ "priority level ≥ 5" +:+ dquote +:+ " or " +:+ dquote +:+ "within 48 hours of deadline" +:+ dquote +:+ "
- " +:+ dquote +:+ "responsibly" +:+ dquote +:+ " → " +:+ dquote +:+ "with proper attribution" +:+ dquote +:+ " or " +:+ dquote +:+ "for non-commercial purposes" +:+ dquote +:+ "
- " +:+ dquote +:+ "when necessary" +:+ dquote +:+ " → " +:+ dquote +:+ "when storage exceeds 80% capacity" +:+ dquote +:+ "
");
      ("require_specification",
       "
Overly broad policies must specify:
- Actors: Replace " +:+ dquote +:+ "everyone" +:+ dquote +:+ " with " +:+ dquote +:+ "registered researchers" +:+ dquote +:+ "
- Assets: Replace " +:+ dquote +:+ "everything" +:+ dquote +:+ " with specific dataset identifiers
- Actions: Replace " +:+ dquote +:+ "anything" +:+ dquote +:+ " with enumerated action list
");
      ("apply_role_hierarchy",
       "
Role conflicts resolved via organizational hierarchy:
1. Map role containment (managers ⊂ administrators)
2. Apply prohibition to all contained roles
3. Flag inconsistent specifications
");
      ("break_cycle_at_weakest_link",
       "
Circular dependencies broken by:
1. Detecting cycle via graph traversal
2. Identifying weakest dependency (least critical approval)
3. Suggesting alternative approval path
") ].

(** [class ConflictExample(BaseModel)]. *)
Record ConflictExample : Type := {
  user_input : string;
  detected_conflict : ConflictType;
  explanation : string;
  resolution : string
}.

(** [CONFLICT_EXAMPLES], a dictionary keyed by conflict type, in insertion
    order. *)
Definition CONFLICT_EXAMPLES : list (ConflictType * ConflictExample) :=
    [ (UNMEASURABLE,
       {| user_input := "Data must be used responsibly for urgent requests";
          detected_conflict := UNMEASURABLE;
          explanation := "'Responsibly' and 'urgent' are subjective and cannot be measured consistently";
          resolution := "Replace with: 'Data must be attributed to source and used only for requests submitted within 48 hours of deadline'" |});
      (VAGUE_BROAD,
       {| user_input := "Everyone can access everything for any purpose";
          detected_conflict := VAGUE_BROAD;
          explanation := "Universal quantifiers create unimplementable, overly permissive policy";
          resolution := "Specify: 'Registered researchers can access datasets X, Y, Z for educational or non-commercial research purposes'" |});
      (SPATIAL_HIERARCHY,
       {| user_input := "Access permitted in Germany but prohibited in all EU countries";
          detected_conflict := SPATIAL_HIERARCHY;
          explanation := "Germany ⊂ EU, so permission and prohibition contradict";
          resolution := "Apply specific-over-general: Allow in Germany (specific) despite EU prohibition (general), OR clarify intent" |});
      (TEMPORAL_OVERLAP,
       {| user_input := "Access allowed 9am-5pm Monday to Friday, but prohibited 2pm-6pm every day";
          detected_conflict := TEMPORAL_OVERLAP;
          explanation := "2pm-5pm overlap on weekdays has contradictory rules";
          resolution := "Apply prohibit-on-ambiguity: Block access 2pm-5pm on weekdays" |});
      (ACTION_HIERARCHY,
       {| user_input := "Users can share the dataset but cannot distribute it";
          detected_conflict := ACTION_HIERARCHY;
          explanation := "In ODRL, 'share' is a subclass of 'distribute' (share ⊑ distribute)";
          resolution := "Prohibit sharing since it's semantically a form of distribution" |});
      (CIRCULAR_DEPENDENCY,
       {| user_input := "Access requires Committee approval → Committee needs Rights verification → Rights needs preliminary access";
          detected_conflict := CIRCULAR_DEPENDENCY;
          explanation := "Cycle detected: Access → Committee → Rights → Access (impossible to start)";
          resolution := "Break cycle: Allow preliminary access without Rights verification, OR delegate Rights verification to external party" |});
      (ROLE_HIERARCHY,
       {| user_input := "Managers must access data weekly; administrators cannot access data; all managers are administrators";
          detected_conflict := ROLE_HIERARCHY;
          explanation := "If managers ⊂ administrators, then requirement + prohibition is impossible";
          resolution := "Clarify role hierarchy: Either managers ⊄ administrators, OR create exception for managers" |}) ].

(** [CONFLICT_EXAMPLES.get(conflict_type)]. *)
Definition example_of (c : ConflictType) : option ConflictExample :=
  snd <$> List.find (fun kv => bool_decide (fst kv = c)) CONFLICT_EXAMPLES.

(** ASCII letters, for [str.title]. *)
Definition is_lower (c : Ascii.ascii) : bool :=
  let n := Ascii.nat_of_ascii c in ((97 <=? n) && (n <=? 122))%nat.

Definition is_upper (c : Ascii.ascii) : bool :=
  let n := Ascii.nat_of_ascii c in ((65 <=? n) && (n <=? 90))%nat.

Definition to_upper (c : Ascii.ascii) : Ascii.ascii :=
  if is_lower c then Ascii.ascii_of_nat (Ascii.nat_of_ascii c - 32) else c.

Definition to_lower (c : Ascii.ascii) : Ascii.ascii :=
  if is_upper c then Ascii.ascii_of_nat (Ascii.nat_of_ascii c + 32) else c.

(** [s.title()] on ASCII text: a letter that follows a letter is made lower
    case, any other letter upper case.  [after_letter] says whether the
    character before was a letter. *)
Fixpoint title_from (after_letter : bool) (s : string) : string :=
  match s with
  | EmptyString => EmptyString
  | String c s' =>
      if is_lower c || is_upper c
      then String (if after_letter then to_lower c else to_upper c) (title_from true s')
      else String c (title_from false s')
  end.

Definition title (s : string) : string := title_from false s.

(** [s.replace('_', ' ')]. *)
Fixpoint underscores_to_spaces (s : string) : string :=
  match s with
  | EmptyString => EmptyString
  | String c s' =>
      String (if Ascii.eqb c (Ascii.ascii_of_nat 95) then Ascii.ascii_of_nat 32 else c)
             (underscores_to_spaces s')
  end.

(** [get_detection_prompt_for_conflict_type].  [None] stands for the
    [StopIteration] that [next] raises when the table has no entry for the
    type. *)
Definition get_detection_prompt_for_conflict_type (c : ConflictType) : option string :=
  match strategy_lookup c with
  | None => None
  | Some strategy =>
      let example := example_of c in
      let principle := default "" (RESOLUTION_PRINCIPLES !! resolution_principle strategy) in
      let from_example (field : ConflictExample -> string) : string :=
        match example with Some e => field e | None => "N/A" end in
      Some ("
## " +:+ title (underscores_to_spaces (value c)) +:+ "

**Detection Order:** " +:+ pretty (detection_order strategy) +:+ " (Priority: "
        +:+ (if (detection_order strategy <=? 2)%Z then "CRITICAL"
             else if (detection_order strategy <=? 5)%Z then "High"
             else "Standard") +:+ ")

**Keywords to Check:** "
        +:+ (match keyword_patterns strategy with
             | [] => "N/A - structural patterns only"
             | _ => join ", " (keyword_patterns strategy)
             end) +:+ "

**Resolution Principle:** " +:+ resolution_principle strategy +:+ "
" +:+ principle +:+ "

**Example:**
Input: " +:+ dquote +:+ from_example user_input +:+ dquote +:+ "
Conflict: " +:+ from_example explanation +:+ "
Resolution: " +:+ from_example resolution +:+ "
")
  end.

End ConflictPrompts.

(** ** The outside world *)

(** A predicate of a [sh:ValidationResult] node, as the loop of
    [_run_shacl_validation] tells them apart. *)
Inductive sh_predicate : Set :=
  | SH_focusNode
  | SH_value
  | SH_sourceConstraintComponent
  | SH_resultPath
  | SH_resultMessage
  | SH_other (iri : string).

(** One [sh:ValidationResult] of the report graph: the pairs that
    [report_graph.predicate_objects(s)] yields, each object under [str]. *)
Definition shacl_result : Type := list (sh_predicate * string).

(** The collaborators of the repository's code, over a state [World] of
    everything outside it.

    - [shacl_results data_ttl shape_ttl]: the body of the [try] block of
      [_run_shacl_validation] up to the report graph, which is rdflib's and
      pyshacl's: parse both graphs, validate, and list the validation results.
      [inl e] is an exception whose [str] is [e].
    - [llm_invoke prompt]: [self.llm.invoke([HumanMessage(content=prompt)])],
      giving [response.content] or ([inl e]) an exception.
    - [utc_today]: [datetime.now(timezone.utc).strftime] with year, month and
      day. *)
Class Collaborators (World : Type) : Type := {
  shacl_results : string -> string -> World -> (string + list shacl_result) * World;
  llm_invoke : string -> World -> (string + string) * World;
  utc_today : World -> string
}.

(** ** agents/validator/odrl_validation_tool.py *)

Module ValidationTool.
Import PyStr.

(** [@dataclass class ValidationIssue]. *)
Record ValidationIssue : Type := {
  issue_type : string;
  focus_node : string;
  property_path : string;
  actual_value : string;
  constraint_violated : string;
  severity : string
}.

#[global] Instance ValidationIssue_eq_dec : EqDecision ValidationIssue.
Proof. solve_decision. Defined.

(** The default of the [severity] field. *)
Definition default_severity : string := "Violation".

(** [@dataclass class ValidationReport]. *)
Record ValidationReport : Type := {
  user_text : string;
  generated_kg : string;
  is_valid : bool;
  issues : list ValidationIssue
}.

(** One step of [_group_issues_by_type]: the dictionary keeps insertion
    order, so it is an association list and a new type goes to its end. *)
Fixpoint group_add (issue : ValidationIssue) (groups : list (string * list ValidationIssue))
  : list (string * list ValidationIssue) :=
  match groups with
  | [] => [(issue_type issue, [issue])]
  | (t, l) :: rest =>
      if String.eqb t (issue_type issue) then (t, l ++ [issue]) :: rest
      else (t, l) :: group_add issue rest
  end.

(** [ValidationReport._group_issues_by_type]. *)
Definition _group_issues_by_type (self : ValidationReport)
  : list (string * list ValidationIssue) :=
  fold_left (fun groups issue => group_add issue groups) (issues self) [].

(** The lines that [to_learning_prompt] writes for the issue numbered
    [i + 1] of a group. *)
Definition issue_lines (i : nat) (issue : ValidationIssue) : list string :=
  [ pretty (S i) +:+ ". **Node**: `" +:+ focus_node issue +:+ "`";
    "   **Property**: `" +:+ property_path issue +:+ "`";
    "   **Current Value**: `" +:+ actual_value issue +:+ "`";
    "   **Constraint Violated**: " +:+ constraint_violated issue ]
  ++ (if String.eqb (severity issue) "Violation" then []
      else [ "   **Severity**: " +:+ severity issue ])
  ++ [ "" ].

(** [ValidationReport.to_learning_prompt]. *)
Definition to_learning_prompt (self : ValidationReport) : string :=
  join nl
    ([ "# ODRL Knowledge Graph Validation Report";
       "";
       "## Original User Request";
       dquote +:+ user_text self +:+ dquote;
       "";
       "## Generated Knowledge Graph";
       "```turtle";
       strip (generated_kg self);
       "```";
       "";
       "## Validation Results" ]
     ++ (if is_valid self then
           [ "**Status**: VALID ";
             "";
             "The generated knowledge graph conforms to all ODRL validation rules." ]
         else
           [ "**Status**: INVALID  - " +:+ pretty (length (issues self)) +:+ " issue(s) detected";
             "" ]
           ++ concat (map (fun '(t, type_issues) =>
                             ("### " +:+ t) :: concat (imap issue_lines type_issues))
                          (_group_issues_by_type self))
           ++ [ "## Learning Notes";
                "The above issues indicate where the knowledge graph doesn't conform to ODRL standards.";
                "Review the constraint violations to understand what corrections are needed." ])).

(** [class OperatorType(Enum)], in declaration order. *)
Inductive OperatorType : Set :=
  | EQ | GT | GTEQ | LT | LTEQ | NEQ | IS_A | HAS_PART | IS_PART_OF
  | IS_ALL_OF | IS_ANY_OF | IS_NONE_OF.

#[global] Instance OperatorType_eq_dec : EqDecision OperatorType.
Proof. solve_decision. Defined.

(** The [.value] of an operator. *)
Definition operator_value (op : OperatorType) : string :=
  match op with
  | EQ => "eq" | GT => "gt" | GTEQ => "gteq" | LT => "lt" | LTEQ => "lteq"
  | NEQ => "neq" | IS_A => "isA" | HAS_PART => "hasPart"
  | IS_PART_OF => "isPartOf" | IS_ALL_OF => "isAllOf"
  | IS_ANY_OF => "isAnyOf" | IS_NONE_OF => "isNoneOf"
  end.

(** Iteration over [OperatorType]. *)
Definition OperatorType_members : list OperatorType :=
  [ EQ; GT; GTEQ; LT; LTEQ; NEQ; IS_A; HAS_PART; IS_PART_OF; IS_ALL_OF;
    IS_ANY_OF; IS_NONE_OF ].

(** [@dataclass class LeftOperandInfo].  [compatible_operators] is a Python
    set; the list holds its members as the source's literal writes them. *)
Record LeftOperandInfo : Type := {
  uri : string;
  label : string;
  definition : string;
  compatible_operators : list OperatorType;
  expected_datatype : option string
}.

(** The order in which a set of operators is iterated.  Python iterates a
    set in the order of its hash table, and the hash of an [Enum] member is
    the hash of its name, a string, which changes with the hash seed of the
    process.  The order is therefore a parameter of the model: [set_order l]
    is the order in which the set written with the literal [l] is iterated,
    some arrangement of its members, the same every time within a
    process. *)
Class SetIteration : Type := {
  set_order : list OperatorType -> list OperatorType;
  set_order_members : forall l, set_order l ≡ₚ l
}.

(** [class ODRLLeftOperands]; [OPERANDS] in insertion order. *)
Module ODRLLeftOperands.

Definition OPERANDS : list (string * LeftOperandInfo) :=
  [ ("dateTime",
     {| uri := "http://www.w3.org/ns/odrl/2/dateTime";
        label := "Datetime";
        definition := "The date (and optional time) of exercising the action";
        compatible_operators := [LT; LTEQ; GT; GTEQ; EQ];
        expected_datatype := Some "xsd:date" |});
    ("count",
     {| uri := "http://www.w3.org/ns/odrl/2/count";
        label := "Count";
        definition := "Numeric count of executions";
        compatible_operators := [LT; LTEQ; GT; GTEQ; EQ];
        expected_datatype := Some "xsd:integer" |});
    ("elapsedTime",
     {| uri := "http://www.w3.org/ns/odrl/2/elapsedTime";
        label := "Elapsed Time";
        definition := "A continuous elapsed time period";
        compatible_operators := [EQ; LT; LTEQ];
        expected_datatype := Some "xsd:duration" |});
    ("payAmount",
     {| uri := "http://www.w3.org/ns/odrl/2/payAmount";
        label := "Payment Amount";
        definition := "The amount of a financial payment";
        compatible_operators := [EQ; LT; LTEQ; GT; GTEQ];
        expected_datatype := Some "xsd:decimal" |});
    ("percentage",
     {| uri := "http://www.w3.org/ns/odrl/2/percentage";
        label := "Asset Percentage";
        definition := "A percentage amount of the target Asset";
        compatible_operators := [EQ; LT; LTEQ; GT; GTEQ];
        expected_datatype := Some "xsd:decimal" |});
    ("spatial",
     {| uri := "http://www.w3.org/ns/odrl/2/spatial";
        label := "Geospatial Named Area";
        definition := "A named geospatial area";
        compatible_operators := [EQ; IS_A; IS_ANY_OF; IS_NONE_OF];
        expected_datatype := None |});
    ("purpose",
     {| uri := "http://www.w3.org/ns/odrl/2/purpose";
        label := "Purpose";
        definition := "A defined purpose for exercising the action";
        compatible_operators := [EQ; IS_A; IS_ANY_OF; IS_NONE_OF];
        expected_datatype := None |});
    ("recipient",
     {| uri := "http://www.w3.org/ns/odrl/2/recipient";
        label := "Recipient";
        definition := "The party receiving the result";
        compatible_operators := [EQ; IS_A; IS_ANY_OF; IS_NONE_OF];
        expected_datatype := None |}) ].

(** [cls.OPERANDS.get(name)]. *)
Definition get_operand (name : string) : option LeftOperandInfo :=
  snd <$> List.find (fun kv => String.eqb (fst kv) name) OPERANDS.

(** [list(cls.OPERANDS.keys())]. *)
Definition list_operands : list string := map fst OPERANDS.

End ODRLLeftOperands.

(** A violation as [_run_shacl_validation] returns it: a dictionary from
    string keys to strings. *)
Abbreviation violation := (gmap string string).

(** [d.get(key, fallback)]. *)
Definition get (d : violation) (key fallback : string) : string :=
  default fallback (d !! key).

(** [class BaseValidator(ABC)]: the two abstract methods. *)
Record BaseValidator : Type := {
  get_shape_ttl : string;
  process_violations : list violation -> list ValidationIssue
}.

(** The body of the loop of [PolicyStructureValidator.process_violations]. *)
Definition policy_structure_issue (v : violation) : ValidationIssue :=
  let constraint_type := get v "source_constraint_component" "" in
  let '(type, violated) :=
    if contains "uid" (get v "result_path" "") then
      ("Missing Policy UID",
       "ODRL Policy must have exactly one odrl:uid property with an IRI value")
    else if contains "OrConstraintComponent" constraint_type then
      ("Missing Policy Rules",
       "ODRL Policy must contain at least one Rule (permission/prohibition/obligation)")
    else
      ("Policy Structure Error", get v "message" "Unknown policy structure violation") in
  {| issue_type := type;
     focus_node := get v "focus_node" "";
     property_path := get v "result_path" "";
     actual_value := get v "value" "not specified";
     constraint_violated := violated;
     severity := default_severity |}.

(** [class PolicyStructureValidator(BaseValidator)]. *)
Definition PolicyStructureValidator : BaseValidator :=
  {| get_shape_ttl :=
       "
@prefix sh: <http://www.w3.org/ns/shacl#> .
@prefix odrl: <http://www.w3.org/ns/odrl/2/> .

<PolicyStructureShape> a sh:NodeShape ;
    sh:targetClass odrl:Policy ;
    sh:property [
        sh:path odrl:uid ;
        sh:minCount 1 ;
        sh:maxCount 1 ;
        sh:nodeKind sh:IRI ;
        sh:message " +:+ dquote +:+ "Policy must have exactly one uid with IRI value" +:+ dquote +:+ " ;
    ] ;
    sh:or (
        [ sh:property [ sh:path odrl:permission ; sh:minCount 1 ] ]
        [ sh:property [ sh:path odrl:prohibition ; sh:minCount 1 ] ]
        [ sh:property [ sh:path odrl:obligation ; sh:minCount 1 ] ]
    ) ;
    sh:message " +:+ dquote +:+ "Policy must have at least one rule" +:+ dquote +:+ " .
";
     process_violations := map policy_structure_issue |}.

(** [ConstraintStructureValidator._extract_from_uri]. *)
Definition structure_extract_from_uri (uri_value : string) : string :=
  if contains "odrl/2/" uri_value then last_piece (split "odrl/2/" uri_value)
  else if contains ":" uri_value then last_piece (split ":" uri_value)
  else uri_value.

(** The body of the loop of [ConstraintStructureValidator.process_violations]. *)
Definition constraint_structure_issue (v : violation) : ValidationIssue :=
  let constraint_type := get v "source_constraint_component" "" in
  let '(type, violated) :=
    if contains "leftOperand" (get v "result_path" "") then
      let actual_operand := structure_extract_from_uri (get v "value" "") in
      ("Invalid Left Operand",
       "Left operand '" +:+ actual_operand +:+ "' is not in ODRL Core. Valid: "
       +:+ join ", " ODRLLeftOperands.list_operands)
    else if contains "operator" (get v "result_path" "") then
      let actual_op := structure_extract_from_uri (get v "value" "") in
      let valid_ops := join ", " (map operator_value OperatorType_members) in
      ("Invalid Operator",
       "Operator '" +:+ actual_op +:+ "' is not in ODRL Core. Valid: " +:+ valid_ops)
    else if contains "XoneConstraintComponent" constraint_type then
      ("Missing Right Operand", "Must have either rightOperand or rightOperandReference")
    else
      ("Constraint Structure Error", get v "message" "Unknown constraint violation") in
  {| issue_type := type;
     focus_node := get v "focus_node" "";
     property_path := get v "result_path" "";
     actual_value := get v "value" "not specified";
     constraint_violated := violated;
     severity := default_severity |}.

(** [class ConstraintStructureValidator(BaseValidator)]. *)
Definition ConstraintStructureValidator : BaseValidator :=
  {| get_shape_ttl :=
       let left_operands :=
         join " " (map (fun op => "odrl:" +:+ op) ODRLLeftOperands.list_operands) in
       let operators :=
         join " " (map (fun op => "odrl:" +:+ operator_value op) OperatorType_members) in
       "
@prefix sh: <http://www.w3.org/ns/shacl#> .
@prefix odrl: <http://www.w3.org/ns/odrl/2/> .

<ConstraintStructureShape> a sh:NodeShape ;
    sh:targetClass odrl:Constraint ;
    
    sh:property [
        sh:path odrl:leftOperand ;
        sh:minCount 1 ;
        sh:maxCount 1 ;
        sh:in ( " +:+ left_operands +:+ " ) ;
        sh:message " +:+ dquote +:+ "Invalid or missing left operand" +:+ dquote +:+ " ;
    ] ;
    
    sh:property [
        sh:path odrl:operator ;
        sh:minCount 1 ;
        sh:maxCount 1 ;
        sh:in ( " +:+ operators +:+ " ) ;
        sh:message " +:+ dquote +:+ "Invalid or missing operator" +:+ dquote +:+ " ;
    ] ;
    
    sh:xone (
        [ sh:property [ sh:path odrl:rightOperand ; sh:minCount 1 ] ]
        [ sh:property [ sh:path odrl:rightOperandReference ; sh:minCount 1 ] ]
    ) ;
    sh:message " +:+ dquote +:+ "Missing right operand or reference" +:+ dquote +:+ " .
";
     process_violations := map constraint_structure_issue |}.

(** [ConstraintCompatibilityValidator._extract_from_uri]. *)
Definition compatibility_extract_from_uri (uri_value : string) : string :=
  if contains "odrl/2/" uri_value then last_piece (split "odrl/2/" uri_value)
  else if contains "#" uri_value then last_piece (split "#" uri_value)
  else if contains "/" uri_value then last_piece (split "/" uri_value)
  else uri_value.

Section WithSetIteration.
Context {O : SetIteration}.

(** The body of the loop of
    [ConstraintCompatibilityValidator.process_violations].  [operand_name] is
    tested for truth: [None] and the empty string both fail the test. *)
Definition compatibility_issue (v : violation) : ValidationIssue :=
  let focus := get v "focus_node" "" in
  let operator := get v "value" "" in
  let message := get v "message" "" in
  let operand_name : option string :=
    if contains "for " message
    then Some (strip (last_piece (split "for " message)))
    else None in
  let violated :=
    match operand_name with
    | None | Some EmptyString => "Operator-operand compatibility issue"
    | Some name =>
        match ODRLLeftOperands.get_operand name with
        | Some operand_info =>
            let valid_ops :=
              join ", " (map operator_value
                           (set_order (compatible_operators operand_info))) in
            let operator_short := compatibility_extract_from_uri operator in
            "Operator '" +:+ operator_short +:+ "' not compatible with leftOperand '"
            +:+ name +:+ "'. Valid: " +:+ valid_ops
        | None => "Unknown operand '" +:+ name +:+ "'"
        end
    end in
  {| issue_type := "Operator Compatibility";
     focus_node := focus;
     property_path := "odrl:operator";
     actual_value := operator;
     constraint_violated := violated;
     severity := "Warning" |}.

(** One rule of [ConstraintCompatibilityValidator.get_shape_ttl]. *)
Definition compatibility_rule (operand_name : string) (operand_info : LeftOperandInfo)
  : string :=
  let compatible_ops :=
    join " " (map (fun op => "odrl:" +:+ operator_value op)
                  (set_order (compatible_operators operand_info))) in
  "
<CompatibilityRule_" +:+ operand_name +:+ "> a sh:NodeShape ;
    sh:targetClass odrl:Constraint ;
    sh:sparql [
        sh:select '''
            PREFIX odrl: <http://www.w3.org/ns/odrl/2/>
            SELECT $this ?operator
            WHERE {
                $this odrl:leftOperand odrl:" +:+ operand_name +:+ " .
                $this odrl:operator ?operator .
                FILTER (?operator NOT IN (" +:+ compatible_ops +:+ "))
            }
        ''' ;
        sh:message " +:+ dquote +:+ "Incompatible operator for " +:+ operand_name +:+ dquote +:+ " ;
        sh:severity sh:Warning ;
    ] .
".

(** [class ConstraintCompatibilityValidator(BaseValidator)]. *)
Definition ConstraintCompatibilityValidator : BaseValidator :=
  {| get_shape_ttl :=
       let rules :=
         map (fun '(operand_name, operand_info) =>
                compatibility_rule operand_name operand_info)
             ODRLLeftOperands.OPERANDS in
       "
@prefix sh: <http://www.w3.org/ns/shacl#> .
@prefix odrl: <http://www.w3.org/ns/odrl/2/> .

" +:+ join nl rules +:+ "
";
     process_violations := map compatibility_issue |}.

End WithSetIteration.

(** [class ODRLValidationTool]: the one attribute. *)
Record ODRLValidationTool : Type := {
  validators : list BaseValidator
}.

(** [ODRLValidationTool.__init__]: the list holds two validators; the line of
    the third, [ConstraintCompatibilityValidator()], is commented out in the
    source. *)
Definition ODRLValidationTool_init : ODRLValidationTool :=
  {| validators := [ PolicyStructureValidator; ConstraintStructureValidator ] |}.

(** The inner loop of [_run_shacl_validation]: one dictionary per
    validation result, a later pair of the same key replacing an earlier
    one. *)
Definition violation_of_result (po : shacl_result) : violation :=
  fold_left
    (fun v '(pred, obj) =>
       match pred with
       | SH_focusNode => <["focus_node" := obj]> v
       | SH_value => <["value" := obj]> v
       | SH_sourceConstraintComponent => <["source_constraint_component" := obj]> v
       | SH_resultPath => <["result_path" := obj]> v
       | SH_resultMessage => <["message" := obj]> v
       | SH_other _ => v
       end)
    po ∅.

(** The dictionary that the [except] branch of [_run_shacl_validation]
    returns for an exception whose text is [e]. *)
Definition validation_error (e : string) : violation :=
  {[ "message" := "Validation error: " +:+ e;
     "focus_node" := "";
     "value" := "";
     "source_constraint_component" := "";
     "result_path" := "" ]}.

Section WithCollaborators.
Context {World : Type} {C : Collaborators World}.

(** [ODRLValidationTool._run_shacl_validation]: every exception of the
    [try] block is caught and becomes one violation. *)
Definition _run_shacl_validation (data_ttl shape_ttl : string) (w : World)
  : list violation * World :=
  match shacl_results data_ttl shape_ttl w with
  | (inr results, w') => (map violation_of_result results, w')
  | (inl e, w') => ([validation_error e], w')
  end.

(** The loop of [validate_kg] over [self.validators], with [all_issues] and
    the world as its state. *)
Fixpoint run_validators (vs : list BaseValidator) (kg_turtle : string)
    (all_issues : list ValidationIssue) (w : World) : list ValidationIssue * World :=
  match vs with
  | [] => (all_issues, w)
  | validator :: vs' =>
      let '(violations, w') := _run_shacl_validation kg_turtle (get_shape_ttl validator) w in
      let found := process_violations validator violations in
      run_validators vs' kg_turtle (all_issues ++ found) w'
  end.

(** [ODRLValidationTool.validate_kg]. *)
Definition validate_kg (self : ODRLValidationTool) (user_text kg_turtle : string)
    (w : World) : ValidationReport * World :=
  let '(all_issues, w') := run_validators (validators self) kg_turtle [] w in
  let valid := Nat.eqb (length all_issues) 0 in
  ({| user_text := user_text;
      generated_kg := kg_turtle;
      is_valid := valid;
      issues := all_issues |}, w').

End WithCollaborators.

End ValidationTool.

(** ** agents/validator/validator_agent.py *)

Module Agent.
Import PyStr ValidationTool.

(** *** Effects: the outside world, exceptions and a trace *)

(** The exceptions that leave the agent's methods: whatever [self.llm.invoke]
    raises, and the [UnboundLocalError] of reading a local variable that was
    never assigned. *)
Inductive exn : Type :=
  | TransducerError (e : string)
  | UnboundLocalError (name : string).

(** The calls the trace records: one [EvValidate] for each call of
    [validate], with the document it checks, and one [EvInvoke] for each call
    of [self.llm.invoke], with its prompt.  The trace is not a variable of the
    source; it is kept to count these calls. *)
Inductive event : Type :=
  | EvValidate (odrl_turtle : string)
  | EvInvoke (prompt : string).

Definition is_validate (e : event) : bool :=
  match e with EvValidate _ => true | EvInvoke _ => false end.

Definition is_invoke (e : event) : bool :=
  match e with EvInvoke _ => true | EvValidate _ => false end.

(** The number of validation passes and of transducer calls in a trace. *)
Definition validation_passes (t : list event) : nat := length (List.filter is_validate t).
Definition transducer_calls (t : list event) : nat := length (List.filter is_invoke t).

Record mstate (World : Type) : Type := {
  world : World;
  trace : list event
}.
Arguments world {World} _.
Arguments trace {World} _.

(** How a computation ends.  [OutOfFuel] is the loop of the model running
    out of its iteration bound; [validate_and_regenerate] never ends so. *)
Inductive outcome (A : Type) : Type :=
  | Returned (a : A)
  | Raised (e : exn)
  | OutOfFuel.
Arguments Returned {A} a.
Arguments Raised {A} e.
Arguments OutOfFuel {A}.

(** State and exceptions. *)
Definition M (World A : Type) : Type := mstate World -> outcome A * mstate World.

Definition ret {World A} (a : A) : M World A := fun st => (Returned a, st).

Definition bind {World A B} (m : M World A) (k : A -> M World B) : M World B :=
  fun st =>
    match m st with
    | (Returned a, st') => k a st'
    | (Raised e, st') => (Raised e, st')
    | (OutOfFuel, st') => (OutOfFuel, st')
    end.

Definition raise {World A} (e : exn) : M World A := fun st => (Raised e, st).

Definition out_of_fuel {World A} : M World A := fun st => (OutOfFuel, st).

(** A call that only changes the world and cannot raise. *)
Definition lift {World A} (f : World -> A * World) : M World A :=
  fun st =>
    let '(a, w) := f (world st) in
    (Returned a, {| world := w; trace := trace st |}).

(** A call that may raise. *)
Definition lift_fallible {World A} (f : World -> (string + A) * World) : M World A :=
  fun st =>
    let '(r, w) := f (world st) in
    let st' := {| world := w; trace := trace st |} in
    match r with
    | inr a => (Returned a, st')
    | inl e => (Raised (TransducerError e), st')
    end.

Definition record {World} (e : event) : M World unit :=
  fun st => (Returned tt, {| world := world st; trace := trace st ++ [e] |}).

Notation "'let*' x ':=' m 'in' k" := (bind m (fun x => k))
  (at level 10, x name, m at level 100, k at level 200).

(** *** Data of the agent *)

(** The dictionary that [validate] returns. *)
Record validation_result : Type := {
  vr_is_valid : bool;
  validation_report : ValidationReport
}.

(** The dictionary of six string fields that the source builds from an
    issue, in [regenerate] and in [validate_and_regenerate]. *)
Definition issue_dict (issue : ValidationIssue) : gmap string string :=
  {[ "issue_type" := issue_type issue;
     "focus_node" := focus_node issue;
     "property_path" := property_path issue;
     "actual_value" := actual_value issue;
     "constraint_violated" := constraint_violated issue;
     "severity" := severity issue ]}.

(** The dictionary that [regenerate] returns; the key [original_issues] is
    only there after a regeneration. *)
Record regen_result : Type := {
  rr_odrl_turtle : string;
  regenerated : bool;
  original_issues : option (list (gmap string string))
}.

(** [attempt_info] of [validate_and_regenerate]. *)
Record attempt_info : Type := {
  ai_attempt : Z;
  ai_is_valid : bool;
  ai_issues : list (gmap string string);
  ai_odrl_turtle : string
}.

(** The dictionary that [validate_and_regenerate] returns; the key
    [final_issues] is only there on failure. *)
Record loop_result : Type := {
  success : bool;
  final_odrl : string;
  attempts : Z;
  all_attempts : list attempt_info;
  final_issues : option (list (gmap string string))
}.

(** [ODRL_REGENERATION_PROMPT.format(current_date=..., validation_learning_prompt=...)]. *)
Definition ODRL_REGENERATION_PROMPT (current_date validation_learning_prompt : string)
  : string :=
  "
# ODRL SHACL VIOLATION FIXER

You are an expert at fixing W3C ODRL 2.2 compliance issues in Turtle format.

**Current Date:** " +:+ current_date +:+ "

---

" +:+ validation_learning_prompt +:+ "

---

## FIXING GUIDELINES

### 1. PRESERVE POLICY MEANING
- Do NOT change who can do what
- Do NOT change which resources
- Do NOT change time periods, counts, or purposes
- Do NOT remove constraints
- ONLY fix technical SHACL compliance issues

### 2. COMMON FIXES

**Missing odrl:uid:**
```turtle
# WRONG
ex:policy_123 a odrl:Policy ;
    odrl:permission [ ... ] .

# CORRECT
ex:policy_123 a odrl:Policy ;
    odrl:uid ex:policy_123 ;  # ← ADD THIS (must match policy URI)
    odrl:permission [ ... ] .
```

**Invalid Operator:**
```turtle
# WRONG
odrl:operator " +:+ dquote +:+ "lte" +:+ dquote +:+ " .          # Missing odrl: prefix
odrl:operator invalidOp .      # Not in ODRL vocabulary

# CORRECT
odrl:operator odrl:lteq .      # Use odrl: prefix and valid operator
```

**Valid ODRL Operators:**
- `odrl:eq` (equals)
- `odrl:neq` (not equals)
- `odrl:lt` (less than)
- `odrl:lteq` (less than or equal)
- `odrl:gt` (greater than)
- `odrl:gteq` (greater than or equal)
- `odrl:isA` (instance of)
- `odrl:isAnyOf` (any of set)
- `odrl:isNoneOf` (none of set)

**Invalid leftOperand:**
```turtle
# WRONG
odrl:leftOperand " +:+ dquote +:+ "dateTime" +:+ dquote +:+ " .  # Missing odrl: prefix
odrl:leftOperand count .       # Missing odrl: prefix

# CORRECT
odrl:leftOperand odrl:dateTime .
odrl:leftOperand odrl:count .
```

**Valid ODRL leftOperands:**
- `odrl:dateTime` (temporal constraints)
- `odrl:count` (usage count)
- `odrl:purpose` (purpose restrictions)
- `odrl:spatial` (geographic restrictions)
- `odrl:recipient` (recipient restrictions)
- `odrl:elapsedTime` (duration constraints)
- `odrl:payAmount` (payment amounts)
- `odrl:percentage` (percentage amounts)

**Missing Constraint Type:**
```turtle
# WRONG
odrl:constraint [
    odrl:leftOperand odrl:dateTime ;  # Missing type declaration
    odrl:operator odrl:lteq ;
    odrl:rightOperand " +:+ dquote +:+ "2025-12-31" +:+ dquote +:+ "^^xsd:date ;
] .

# CORRECT
odrl:constraint [
    a odrl:Constraint ;  # ← ADD THIS
    odrl:leftOperand odrl:dateTime ;
    odrl:operator odrl:lteq ;
    odrl:rightOperand " +:+ dquote +:+ "2025-12-31" +:+ dquote +:+ "^^xsd:date ;
] .
```

**Missing Permission/Prohibition Type:**
```turtle
# WRONG
odrl:permission [
    odrl:action odrl:read ;  # Missing type declaration
    odrl:target ex:dataset ;
] .

# CORRECT
odrl:permission [
    a odrl:Permission ;  # ← ADD THIS
    odrl:action odrl:read ;
    odrl:target ex:dataset ;
] .
```

**Wrong Datatype:**
```turtle
# WRONG
odrl:rightOperand " +:+ dquote +:+ "2025-12-31" +:+ dquote +:+ " .      # Missing ^^xsd:date
odrl:rightOperand " +:+ dquote +:+ "30" +:+ dquote +:+ " .              # Missing ^^xsd:integer

# CORRECT
odrl:rightOperand " +:+ dquote +:+ "2025-12-31" +:+ dquote +:+ "^^xsd:date .
odrl:rightOperand " +:+ dquote +:+ "30" +:+ dquote +:+ "^^xsd:integer .
```

---

## OUTPUT REQUIREMENTS

1. **Return ONLY the corrected Turtle**
2. **NO markdown code blocks** (no ```)
3. **NO explanatory text**
4. **Start with @prefix declarations**
5. **Preserve all metadata** (dct:title, dct:description, rdfs:comment)
6. **Fix ONLY the specific SHACL violations listed above**
7. **Do NOT change the policy meaning**

---

Return the corrected ODRL Turtle now:
".

(** [class ValidatorAgent]: the attributes besides the client [self.llm],
    which is the collaborator [llm_invoke]. *)
Record ValidatorAgent : Type := {
  endpoint_type : string;
  validator_tool : ODRLValidationTool
}.

(** Python's truth test of an optional string argument. *)
Definition truthy (s : option string) : bool :=
  match s with
  | None | Some EmptyString => false
  | Some _ => true
  end.

(** [ValidatorAgent.__init__], as far as the attributes above go. *)
Definition ValidatorAgent_init (api_version azure_endpoint : option string) : ValidatorAgent :=
  {| endpoint_type :=
       if truthy azure_endpoint || truthy api_version then "Azure" else "OpenAI-compatible";
     validator_tool := ODRLValidationTool_init |}.

(** [ValidatorAgent._clean_turtle]. *)
Definition _clean_turtle (content : string) : string :=
  let content := sub_fence "```turtle" 0 false content in
  let content := sub_fence "```" 0 false content in
  let lines := split nl content in
  let start_idx :=
    default 0%nat
      (fst <$> list_find (fun line => String.prefix "@prefix" (strip line) = true) lines) in
  let content := join nl (drop start_idx lines) in
  strip content.

(** The variables of the loop of [validate_and_regenerate].  [attempt_info]
    is unassigned ([None]) until the body has run once. *)
Record loop_vars : Type := {
  attempt : Z;
  odrl_turtle : string;
  attempts_so_far : list attempt_info;
  last_attempt_info : option attempt_info
}.

(** How one run of the loop body ends: at its last statement, at [break], or
    at [return]. *)
Inductive body_exit : Type :=
  | Continue (v : loop_vars)
  | Break (v : loop_vars)
  | Return (r : loop_result).

Section WithCollaborators.
Context {World : Type} {C : Collaborators World}.

(** [ValidatorAgent.validate] (its logging left out). *)
Definition validate (self : ValidatorAgent) (policy_text odrl_turtle : string)
  : M World validation_result :=
  let* _ := record (EvValidate odrl_turtle) in
  let* report := lift (validate_kg (validator_tool self) policy_text odrl_turtle) in
  ret {| vr_is_valid := is_valid report; validation_report := report |}.

(** [ValidatorAgent.regenerate]. *)
Definition regenerate (self : ValidatorAgent) (validation_result : validation_result)
  : M World regen_result :=
  let report := validation_report validation_result in
  if is_valid report then
    ret {| rr_odrl_turtle := generated_kg report;
           regenerated := false;
           original_issues := None |}
  else
    let* current_date := lift (fun w => (utc_today w, w)) in
    let learning_prompt := to_learning_prompt report in
    let prompt := ODRL_REGENERATION_PROMPT current_date learning_prompt in
    let* _ := record (EvInvoke prompt) in
    let* response := lift_fallible (llm_invoke prompt) in
    let corrected_turtle := _clean_turtle response in
    ret {| rr_odrl_turtle := corrected_turtle;
           regenerated := true;
           original_issues := Some (map issue_dict (issues report)) |}.

(** The body of the [while] loop of [validate_and_regenerate]. *)
Definition loop_body (self : ValidatorAgent) (policy_text : string) (max_attempts : Z)
    (v : loop_vars) : M World body_exit :=
  let* validation_result := validate self policy_text (odrl_turtle v) in
  let report := validation_report validation_result in
  let info :=
    {| ai_attempt := attempt v;
       ai_is_valid := is_valid report;
       ai_issues := map issue_dict (issues report);
       ai_odrl_turtle := odrl_turtle v |} in
  if is_valid report then
    ret (Return {| success := true;
                   final_odrl := odrl_turtle v;
                   attempts := attempt v;
                   all_attempts := attempts_so_far v ++ [info];
                   final_issues := None |})
  else if (attempt v =? max_attempts)%Z then
    ret (Break {| attempt := attempt v;
                  odrl_turtle := odrl_turtle v;
                  attempts_so_far := attempts_so_far v ++ [info];
                  last_attempt_info := Some info |})
  else
    let* regen_result := regenerate self validation_result in
    ret (Continue {| attempt := attempt v + 1;
                     odrl_turtle := rr_odrl_turtle regen_result;
                     attempts_so_far := attempts_so_far v ++ [info];
                     last_attempt_info := Some info |}).

(** [while attempt <= max_attempts: ...], at most [fuel] runs of the body.
    [inl v] is the loop left by [break] or by its condition, [inr r] a
    [return] inside it. *)
Fixpoint while_loop (fuel : nat) (self : ValidatorAgent) (policy_text : string)
    (max_attempts : Z) (v : loop_vars) : M World (loop_vars + loop_result) :=
  if (attempt v <=? max_attempts)%Z then
    match fuel with
    | O => out_of_fuel
    | S fuel' =>
        let* e := loop_body self policy_text max_attempts v in
        match e with
        | Continue v' => while_loop fuel' self policy_text max_attempts v'
        | Break v' => ret (inl v')
        | Return r => ret (inr r)
        end
    end
  else ret (inl v).

(** The variables before the loop: [attempt = 1], [all_attempts = []]. *)
Definition initial_vars (odrl_turtle : string) : loop_vars :=
  {| attempt := 1;
     odrl_turtle := odrl_turtle;
     attempts_so_far := [];
     last_attempt_info := None |}.

(** The statements after the loop: the failure result, whose last entry
    reads [attempt_info]. *)
Definition after_loop (max_attempts : Z) (v : loop_vars) : M World loop_result :=
  match last_attempt_info v with
  | None => raise (UnboundLocalError "attempt_info")
  | Some info =>
      ret {| success := false;
             final_odrl := odrl_turtle v;
             attempts := max_attempts;
             all_attempts := attempts_so_far v;
             final_issues := Some (ai_issues info) |}
  end.

(** [ValidatorAgent.validate_and_regenerate].  The body runs at most
    [max_attempts] times, which is the fuel given to the loop. *)
Definition validate_and_regenerate (self : ValidatorAgent)
    (policy_text odrl_turtle : string) (max_attempts : Z) : M World loop_result :=
  let* e := while_loop (Z.to_nat max_attempts) self policy_text max_attempts
              (initial_vars odrl_turtle) in
  match e with
  | inr r => ret r
  | inl v => after_loop max_attempts v
  end.

(** The loop of [validate_and_regenerate], entered with the variables [v0]
    in the state [st0], stands at the head of an iteration with the
    variables [v] in the state [st]: every iteration before ran to the last
    statement of the body. *)
Inductive at_loop_head (self : ValidatorAgent) (policy_text : string) (max_attempts : Z)
    (v0 : loop_vars) (st0 : mstate World) : loop_vars -> mstate World -> Prop :=
  | head_first : at_loop_head self policy_text max_attempts v0 st0 v0 st0
  | head_next v st v' st' :
      at_loop_head self policy_text max_attempts v0 st0 v st ->
      (attempt v <= max_attempts)%Z ->
      loop_body self policy_text max_attempts v st = (Returned (Continue v'), st') ->
      at_loop_head self policy_text max_attempts v0 st0 v' st'.

(** The collaborators' side of a session on the document [d] entered in the
    world [w]: after [n] rounds the document is [d'] and the world is [w'].
    A round is one validation pass that finds issues and then one call of
    the language model, with the regeneration prompt for the report of that
    pass and in the world that the pass left, answered with a text that,
    cleaned, is the next document. *)
Inductive rounds (tool : ODRLValidationTool) (policy_text d : string) (w : World)
    : nat -> string -> World -> Prop :=
  | rounds_O : rounds tool policy_text d w 0 d w
  | rounds_S n d' w' response w'' :
      rounds tool policy_text d w n d' w' ->
      issues (validate_kg tool policy_text d' w').1 <> [] ->
      llm_invoke
        (ODRL_REGENERATION_PROMPT
           (utc_today (validate_kg tool policy_text d' w').2)
           (to_learning_prompt (validate_kg tool policy_text d' w').1))
        (validate_kg tool policy_text d' w').2
      = (inr response, w'') ->
      rounds tool policy_text d w (S n) (_clean_turtle response) w''.

End WithCollaborators.

End Agent.

(** ** Scripted collaborators for worked examples *)

Module Scripted.

(** A policy with its [odrl:uid] and one permission. *)
Definition conforming_policy : string :=
  "@prefix odrl: <http://www.w3.org/ns/odrl/2/> .
@prefix ex: <http://example.com/> .

ex:policy1 a odrl:Policy ;
    odrl:uid ex:policy1 ;
    odrl:permission [
        a odrl:Permission ;
        odrl:action odrl:read ;
        odrl:target ex:document
    ] .".

(** The same policy without its [odrl:uid]. *)
Definition policy_without_uid : string :=
  "@prefix odrl: <http://www.w3.org/ns/odrl/2/> .
@prefix ex: <http://example.com/> .

ex:policy1 a odrl:Policy ;
    odrl:permission [
        a odrl:Permission ;
        odrl:action odrl:read ;
        odrl:target ex:document
    ] .".

(** A policy whose constraint has the operand [odrl:count] with the operator
    [odrl:isAnyOf]; both names are in the lists of the constraint shape. *)
Definition count_is_any_of_policy : string :=
  "@prefix odrl: <http://www.w3.org/ns/odrl/2/> .
@prefix ex: <http://example.com/> .

ex:policy1 a odrl:Policy ;
    odrl:uid ex:policy1 ;
    odrl:permission [
        a odrl:Permission ;
        odrl:action odrl:read ;
        odrl:target ex:document ;
        odrl:constraint [
            a odrl:Constraint ;
            odrl:leftOperand odrl:count ;
            odrl:operator odrl:isAnyOf ;
            odrl:rightOperand ex:five
        ]
    ] .".


(** The world is the queue of answers the language model still has to give:
    [llm_invoke] takes the head, and raises when the queue is empty.  The
    SHACL engine answers by a fixed function of the data and shape texts, and
    the clock stands still. *)
Definition collaborators (engine : string -> string -> string + list shacl_result)
  : Collaborators (list (string + string)) :=
  {| shacl_results := fun data_ttl shape_ttl w => (engine data_ttl shape_ttl, w);
     llm_invoke := fun _ w =>
       match w with
       | answer :: w' => (answer, w')
       | [] => (inl "no answer left", [])
       end;
     utc_today := fun _ => "2025-01-01" |}.

(** An engine for which every document conforms to every shape. *)
Definition conforming : string -> string -> string + list shacl_result :=
  fun _ _ => inr [].


(** An engine that reports, for the one document [bad], a policy without
    [odrl:uid] under the policy shape, and nothing else. *)
Definition missing_uid (bad : string) : string -> string -> string + list shacl_result :=
  fun data_ttl shape_ttl =>
    if String.eqb data_ttl bad
       && String.eqb shape_ttl (ValidationTool.get_shape_ttl ValidationTool.PolicyStructureValidator)
    then inr [ [ (SH_focusNode, "http://example.com/policy1");
                 (SH_resultPath, "http://www.w3.org/ns/odrl/2/uid");
                 (SH_sourceConstraintComponent,
                  "http://www.w3.org/ns/shacl#MinCountConstraintComponent");
                 (SH_resultMessage, "Policy must have exactly one uid with IRI value") ] ]
    else inr [].

(** An engine that finds [count_is_any_of_policy] conforming to the two
    structural shapes, the shapes that the tool as configured runs; nothing
    else is scripted. *)
Definition count_is_any_of : string -> string -> string + list shacl_result :=
  fun data_ttl shape_ttl =>
    if String.eqb data_ttl count_is_any_of_policy
       && (String.eqb shape_ttl (ValidationTool.get_shape_ttl ValidationTool.PolicyStructureValidator)
           || String.eqb shape_ttl
                (ValidationTool.get_shape_ttl ValidationTool.ConstraintStructureValidator))
    then inr []
    else inl "not scripted".

(** The iteration that follows the order of the literal, one of the orders
    a process can have. *)
Definition literal_order : ValidationTool.SetIteration :=
  {| ValidationTool.set_order := fun l => l;
     ValidationTool.set_order_members := fun l => Permutation_refl l |}.

(** Collaborators whose language model never fails and always gives the same
    [answer]; the world counts its calls. *)
Definition repeating (engine : string -> string -> string + list shacl_result)
    (answer : string) : Collaborators nat :=
  {| shacl_results := fun data_ttl shape_ttl w => (engine data_ttl shape_ttl, w);
     llm_invoke := fun _ n => (inr answer, S n);
     utc_today := fun _ => "2025-01-01" |}.

(** The initial state: a world and an empty trace. *)
Definition start {World : Type} (w : World) : Agent.mstate World :=
  {| Agent.world := w; Agent.trace := [] |}.

(** The agent of the examples. *)
Definition agent : Agent.ValidatorAgent := Agent.ValidatorAgent_init None None.

(** A session on [policy_without_uid], where the model is scripted to answer
    once, with [conforming_policy].  After the
    first attempt the loop stands at the head of the second with these
    variables, in this state. *)
Definition first_attempt_info : Agent.attempt_info :=
  {| Agent.ai_attempt := 1;
     Agent.ai_is_valid := false;
     Agent.ai_issues :=
       map Agent.issue_dict
         (ValidationTool.issues
            (ValidationTool.validate_kg (C := collaborators (missing_uid policy_without_uid))
               ValidationTool.ODRLValidationTool_init "policy" policy_without_uid [inr conforming_policy]).1);
     Agent.ai_odrl_turtle := policy_without_uid |}.

Definition second_attempt_vars : Agent.loop_vars :=
  {| Agent.attempt := 2;
     Agent.odrl_turtle := conforming_policy;
     Agent.attempts_so_far := [first_attempt_info];
     Agent.last_attempt_info := Some first_attempt_info |}.

Definition second_attempt_state : Agent.mstate (list (string + string)) :=
  {| Agent.world := [];
     Agent.trace :=
       [ Agent.EvValidate policy_without_uid;
         Agent.EvInvoke
           (Agent.ODRL_REGENERATION_PROMPT "2025-01-01"
              (ValidationTool.to_learning_prompt
                 (ValidationTool.validate_kg (C := collaborators (missing_uid policy_without_uid))
                    ValidationTool.ODRLValidationTool_init "policy" policy_without_uid
                    [inr conforming_policy]).1)) ] |}.

End Scripted.

(** * Properties *)

(** A decidable statement about concrete data, settled by evaluating its
    decision procedure. *)
Ltac by_computation := apply (bool_decide_unpack _); vm_compute; reflexivity.

(** ** The strategy table and classification *)

Section Taxonomy.
Import ConflictTypes.

#[local] Instance before_refl : Reflexive before.
Proof. intros s. unfold before. lia. Qed.

#[local] Instance before_trans : Transitive before.
Proof. intros a b c. unfold before. lia. Qed.

#[local] Instance before_total : Total before.
Proof. intros a b. unfold before. lia. Qed.

(** In a list sorted by [before], the first entry that a signal triggers
    has the least [detection_order] of all the entries it triggers. *)
Lemma find_sorted_least sig l s :
  StronglySorted before l ->
  List.find (triggered sig) l = Some s ->
  s ∈ l /\ triggered sig s = true /\
  forall s', s' ∈ l -> triggered sig s' = true -> before s s'.
Proof.
  induction 1 as [|x l Hsorted IH Hall]; simpl; [discriminate|].
  destruct (triggered sig x) eqn:Hx.
  - intros [= <-]. split; [left|]. split; [done|].
    intros s' Hin _. apply elem_of_cons in Hin as [->|Hin]; [reflexivity|].
    rewrite Forall_forall in Hall. auto.
  - intros Hfind. destruct (IH Hfind) as (Hin & Htrig & Hleast).
    split; [by right|]. split; [done|].
    intros s' Hin' Htrig'. apply elem_of_cons in Hin' as [->|Hin']; [congruence|auto].
Qed.

(** A triggered entry makes the scan succeed. *)
Lemma find_triggered_some sig l s :
  s ∈ l -> triggered sig s = true -> is_Some (List.find (triggered sig) l).
Proof.
  intros Hin Htrig. destruct (List.find (triggered sig) l) eqn:Hfind; [eauto|].
  apply list_elem_of_In in Hin.
  pose proof (find_none _ _ Hfind _ Hin). congruence.
Qed.

(** Classification over any table: the result is a triggered entry of the
    table of least [detection_order]. *)
Lemma classify_with_least table sig s :
  s ∈ table -> triggered sig s = true ->
  exists s0, classify_with table sig = Classified (conflict_type s0) /\
    s0 ∈ table /\ triggered sig s0 = true /\
    forall s', s' ∈ table -> triggered sig s' = true -> before s0 s'.
Proof.
  intros Hin Htrig. unfold classify_with.
  pose proof (merge_sort_Permutation before table) as Hperm.
  pose proof (StronglySorted_merge_sort before table) as Hsorted.
  destruct (find_triggered_some sig (merge_sort before table) s) as [s0 Hfind];
    [by rewrite Hperm | done |].
  rewrite Hfind.
  destruct (find_sorted_least _ _ _ Hsorted Hfind) as (Hin0 & Htrig0 & Hleast).
  exists s0. split; [done|]. rewrite Hperm in Hin0. split; [done|]. split; [done|].
  intros s' Hin' Htrig'. apply Hleast; [by rewrite Hperm | done].
Qed.

(** The priorities of the table are pairwise distinct. *)
Lemma detection_orders_distinct : NoDup (map detection_order CONFLICT_STRATEGIES).
Proof. by_computation. Qed.

(** Two entries of the table with the same priority are the same entry. *)
Lemma detection_order_inj s1 s2 :
  s1 ∈ CONFLICT_STRATEGIES -> s2 ∈ CONFLICT_STRATEGIES ->
  detection_order s1 = detection_order s2 -> s1 = s2.
Proof.
  generalize detection_orders_distinct. generalize CONFLICT_STRATEGIES as l.
  induction l as [|x l IH]; intros Hnd H1 H2 Heq; [by apply elem_of_nil in H1|].
  simpl in Hnd. apply NoDup_cons in Hnd as [Hx Hnd].
  apply elem_of_cons in H1 as [->|H1]; apply elem_of_cons in H2 as [->|H2]; auto.
  - exfalso. apply Hx. rewrite Heq. by apply (list_elem_of_fmap_2 detection_order).
  - exfalso. apply Hx. rewrite <- Heq. by apply (list_elem_of_fmap_2 detection_order).
Qed.

(** C5. For a conflict signal that triggers at least one strategy of the
    table, [classify] returns the type of a triggered strategy whose
    [detection_order] is the lowest: every other triggered strategy has a
    strictly higher number.  In particular a signal with the keyword
    [urgent] classifies to [UNMEASURABLE] (value [unmeasurable_terms]),
    whatever else it holds.  [classify] is modelled from the spec. *)
Theorem classify_lowest_detection_order :
  (forall sig s,
      s ∈ CONFLICT_STRATEGIES -> triggered sig s = true ->
      exists s0, classify sig = Classified (conflict_type s0) /\
        s0 ∈ CONFLICT_STRATEGIES /\ triggered sig s0 = true /\
        forall s', s' ∈ CONFLICT_STRATEGIES -> triggered sig s' = true ->
          s' = s0 \/ (detection_order s0 < detection_order s')%Z)
  /\ (forall sig, "urgent" ∈ signal_keywords sig ->
        classify sig = Classified UNMEASURABLE
        /\ value UNMEASURABLE = "unmeasurable_terms").
Proof.
  split.
  - intros sig s Hin Htrig.
    destruct (classify_with_least _ _ _ Hin Htrig) as (s0 & Hc & Hin0 & Htrig0 & Hleast).
    exists s0. repeat split; try done.
    intros s' Hin' Htrig'. specialize (Hleast s' Hin' Htrig'). unfold before in Hleast.
    destruct (decide (detection_order s0 = detection_order s')) as [Heq|Hne].
    + left. symmetry. by apply detection_order_inj.
    + right. lia.
  - intros sig Hin. split; [|reflexivity].
    unfold classify, classify_with.
    replace (merge_sort before CONFLICT_STRATEGIES) with CONFLICT_STRATEGIES
      by (vm_compute; reflexivity).
    unfold CONFLICT_STRATEGIES at 1. cbn [List.find].
    assert (Htrig : forall s, "urgent" ∈ keyword_patterns s -> triggered sig s = true).
    { intros s Hs. unfold triggered. apply orb_true_iff. left.
      apply existsb_exists. exists "urgent". split; [by apply list_elem_of_In|].
      by apply bool_decide_eq_true_2. }
    rewrite Htrig; [reflexivity|]. cbn [keyword_patterns]. left.
Qed.

(** The theorem at a signal that holds the keyword [urgent] and, besides,
    the cycle pattern of the strategy numbered 8: both parts apply, and the
    type returned is [UNMEASURABLE]. *)
Lemma classify_lowest_detection_order_witness :
  let sig := {| signal_keywords := ["urgent"];
                signal_structures := [ {[ "dependency_chain" := PStr "contains_cycle" ]} ] |} in
  (exists s0, classify sig = Classified (conflict_type s0) /\
     s0 ∈ CONFLICT_STRATEGIES /\ triggered sig s0 = true /\
     forall s', s' ∈ CONFLICT_STRATEGIES -> triggered sig s' = true ->
       s' = s0 \/ (detection_order s0 < detection_order s')%Z)
  /\ classify sig = Classified UNMEASURABLE.
Proof.
  cbv zeta. split.
  - apply (proj1 classify_lowest_detection_order _
             {| conflict_type := CIRCULAR_DEPENDENCY;
                detection_order := 8;
                requires_ontology := false;
                requires_graph_analysis := true;
                keyword_patterns := [];
                structural_patterns := [ {[ "dependency_chain" := PStr "contains_cycle" ]} ];
                resolution_principle := "break_cycle_at_weakest_link";
                default_action := "reject" |}).
    + unfold CONFLICT_STRATEGIES. do 7 right. left.
    + vm_compute. reflexivity.
  - apply (proj2 classify_lowest_detection_order). simpl. left.
Defined.

(** C6, as the code has it.  The enumeration has fourteen members.  No
    member has two entries in [CONFLICT_STRATEGIES]; eight members have
    exactly one, and the other six have none.  The priorities of the entries
    are pairwise distinct. *)
Theorem strategies_cover_eight_of_fourteen :
  (forall c, c ∈ members) /\ length members = 14 /\
  (forall c, length (strategies_for CONFLICT_STRATEGIES c) <= 1) /\
  (forall c, length (strategies_for CONFLICT_STRATEGIES c) = 1 <->
     c ∈ [ UNMEASURABLE; VAGUE_BROAD; TEMPORAL_EXPIRED; TEMPORAL_OVERLAP;
           SPATIAL_HIERARCHY; ACTION_HIERARCHY; ROLE_HIERARCHY;
           CIRCULAR_DEPENDENCY ]) /\
  (forall c, strategies_for CONFLICT_STRATEGIES c = [] <->
     c ∈ [ SPATIAL_OVERLAP; TEMPORAL_IMPOSSIBLE; ACTION_SUBSUMPTION;
           ACTION_CONFLICT; WORKFLOW_CYCLE; PARTY_INCONSISTENCY ]) /\
  NoDup (map detection_order CONFLICT_STRATEGIES).
Proof.
  split; [intros c; destruct c; by_computation|].
  split; [reflexivity|].
  split; [intros c; destruct c; vm_compute; lia|].
  split; [|split; [|exact detection_orders_distinct]].
  - intros c; destruct c; split; intros H;
      first [ by_computation
            | vm_compute in H; discriminate H
            | exfalso; revert H; by_computation ].
  - intros c; destruct c; split; intros H;
      first [ by_computation
            | vm_compute in H; discriminate H
            | exfalso; revert H; by_computation ].
Qed.

(** C6, as the spec states it, fails at [SPATIAL_OVERLAP]: a member of the
    enumeration with no entry in the table, where the lookup of
    [get_detection_prompt_for_conflict_type] finds nothing. *)
Lemma spatial_overlap_has_no_strategy :
  SPATIAL_OVERLAP ∈ members /\
  length (strategies_for CONFLICT_STRATEGIES SPATIAL_OVERLAP) = 0 /\
  strategy_lookup SPATIAL_OVERLAP = None.
Proof.
  split; [by_computation|].
  split; reflexivity.
Qed.

End Taxonomy.

(** ** The validation tool *)

Section Tool.
Import PyStr ValidationTool.
Context {O : SetIteration}.

(** The two validators of the tool only make issues of the default
    severity; the compatibility validator only makes warnings. *)
Lemma policy_structure_issue_severity v :
  severity (policy_structure_issue v) = "Violation"
  /\ issue_type (policy_structure_issue v) <> "Operator Compatibility".
Proof.
  unfold policy_structure_issue.
  repeat match goal with |- context [if ?b then _ else _] => destruct b end;
    simpl; split; done.
Qed.

Lemma constraint_structure_issue_severity v :
  severity (constraint_structure_issue v) = "Violation"
  /\ issue_type (constraint_structure_issue v) <> "Operator Compatibility".
Proof.
  unfold constraint_structure_issue.
  repeat match goal with |- context [if ?b then _ else _] => destruct b end;
    simpl; split; done.
Qed.

Lemma compatibility_issue_severity v :
  severity (compatibility_issue v) = "Warning"
  /\ issue_type (compatibility_issue v) = "Operator Compatibility"
  /\ property_path (compatibility_issue v) = "odrl:operator".
Proof. done. Qed.

Lemma configured_validators_structural validator violations :
  validator ∈ validators ODRLValidationTool_init ->
  Forall (fun i => severity i = "Violation" /\ issue_type i <> "Operator Compatibility")
         (process_violations validator violations).
Proof.
  intros Hin. apply Forall_forall. intros i Hi.
  cbn in Hin. apply elem_of_cons in Hin as [->|Hin];
    [|apply elem_of_cons in Hin as [->|Hin]; [|by apply elem_of_nil in Hin]];
    cbn in Hi; apply list_elem_of_fmap in Hi as (v & -> & _).
  - apply policy_structure_issue_severity.
  - apply constraint_structure_issue_severity.
Qed.

Context {World : Type} {C : Collaborators World}.

(** The loop over the validators keeps a property that every validator's
    issues have. *)
Lemma run_validators_Forall (P : ValidationIssue -> Prop) vs kg acc w :
  (forall validator violations,
      validator ∈ vs -> Forall P (process_violations validator violations)) ->
  Forall P acc ->
  Forall P (run_validators vs kg acc w).1.
Proof.
  revert acc w. induction vs as [|validator vs IH]; intros acc w Hvs Hacc; [done|].
  cbn [run_validators].
  destruct (_run_shacl_validation kg (get_shape_ttl validator) w) as [violations w'].
  apply IH.
  - intros v' vio Hin. apply Hvs. by right.
  - apply Forall_app. split; [done|]. apply Hvs. by left.
Qed.

(** The fields of the report. *)
Lemma validate_kg_fields self user kg w :
  let report := (validate_kg self user kg w).1 in
  user_text report = user /\ generated_kg report = kg
  /\ issues report = (run_validators (validators self) kg [] w).1
  /\ is_valid report = Nat.eqb (length (issues report)) 0.
Proof.
  unfold validate_kg.
  destruct (run_validators (validators self) kg [] w) as [all_issues w']. done.
Qed.

Lemma validate_kg_valid_iff self user kg w :
  is_valid (validate_kg self user kg w).1 = true
  <-> issues (validate_kg self user kg w).1 = [].
Proof.
  destruct (validate_kg_fields self user kg w) as (_ & _ & _ & ->).
  destruct (issues (validate_kg self user kg w).1); simpl; split; done.
Qed.

Lemma validate_kg_invalid_iff self user kg w :
  is_valid (validate_kg self user kg w).1 = false
  <-> issues (validate_kg self user kg w).1 <> [].
Proof.
  rewrite <- validate_kg_valid_iff.
  destruct (is_valid (validate_kg self user kg w).1); split; congruence.
Qed.

(** C4. The report that [validate_kg] returns has [is_valid] true exactly
    when its list of issues is empty. *)
Theorem report_valid_iff_no_issues (self : ODRLValidationTool)
    (user_text kg_turtle : string) (w : World) :
  is_valid (validate_kg self user_text kg_turtle w).1 = true
  <-> issues (validate_kg self user_text kg_turtle w).1 = [].
Proof. apply validate_kg_valid_iff. Qed.

(** C7, as the code has it.  [ConstraintCompatibilityValidator] turns every
    SHACL result it is given into one issue of type [Operator Compatibility]
    on [odrl:operator] with severity [Warning].  The tool as [__init__]
    configures it does not run that validator: whatever the engine answers,
    every issue of [validate_kg] has severity [Violation] and none is an
    operator compatibility issue. *)
Theorem compatibility_warning_not_in_configured_tool :
  (forall violations : list violation,
      length (process_violations ConstraintCompatibilityValidator violations)
      = length violations
      /\ Forall (fun i => issue_type i = "Operator Compatibility"
                          /\ property_path i = "odrl:operator"
                          /\ severity i = "Warning")
                (process_violations ConstraintCompatibilityValidator violations))
  /\ (ConstraintCompatibilityValidator ∉ validators ODRLValidationTool_init)
  /\ (forall (user_text kg_turtle : string) (w : World),
        Forall (fun i => severity i = "Violation"
                         /\ issue_type i <> "Operator Compatibility")
               (issues (validate_kg ODRLValidationTool_init user_text kg_turtle w).1)).
Proof.
  split; [|split].
  - intros violations. cbn [process_violations ConstraintCompatibilityValidator].
    split; [apply length_map|].
    apply Forall_forall. intros i Hi.
    apply list_elem_of_fmap in Hi as (v & -> & _).
    destruct (compatibility_issue_severity v) as (? & ? & ?). done.
  - intros Hin. cbn in Hin.
    assert (Hshape : forall v, v ∈ validators ODRLValidationTool_init ->
              process_violations v [∅] <> process_violations ConstraintCompatibilityValidator [∅]).
    { intros v Hv. cbn in Hv.
      apply elem_of_cons in Hv as [->|Hv];
        [|apply elem_of_cons in Hv as [->|Hv]; [|by apply elem_of_nil in Hv]];
        vm_compute; discriminate. }
    by apply (Hshape _ Hin).
  - intros user kg w.
    destruct (validate_kg_fields ODRLValidationTool_init user kg w) as (_ & _ & -> & _).
    apply (run_validators_Forall
             (fun i => severity i = "Violation" /\ issue_type i <> "Operator Compatibility"));
      [|done].
    intros validator violations Hin. by apply configured_validators_structural.
Qed.

End Tool.

Section ToolExamples.
Import PyStr ValidationTool Scripted.

(** C7, as the spec states it, fails at [count_is_any_of_policy]: the tool
    as configured returns a valid report without issues, so not one
    operator compatibility issue. *)
Lemma count_is_any_of_not_reported :
  let report :=
    (validate_kg (C := collaborators count_is_any_of)
       ODRLValidationTool_init "policy" count_is_any_of_policy []).1 in
  issues report = [] /\ is_valid report = true
  /\ length (filter (fun i => issue_type i = "Operator Compatibility") (issues report)) <> 1.
Proof.
  cbv zeta. split; [vm_compute; reflexivity|]. split; [vm_compute; reflexivity|].
  vm_compute; lia.
Qed.

End ToolExamples.

(** ** The agent: one call of each method *)

Section AgentSteps.
Import PyStr ValidationTool Agent.
Context {World : Type} {C : Collaborators World}.

#[local] Opaque ODRL_REGENERATION_PROMPT to_learning_prompt _clean_turtle.

(** [validate] records the pass, runs the tool and cannot raise. *)
Lemma validate_run self policy_text doc st :
  validate self policy_text doc st
  = (Returned
       {| vr_is_valid := is_valid (validate_kg (validator_tool self) policy_text doc (world st)).1;
          validation_report := (validate_kg (validator_tool self) policy_text doc (world st)).1 |},
     {| world := (validate_kg (validator_tool self) policy_text doc (world st)).2;
        trace := trace st ++ [EvValidate doc] |}).
Proof.
  unfold validate, bind, record, lift, ret. simpl.
  destruct (validate_kg (validator_tool self) policy_text doc (world st)). reflexivity.
Qed.

(** The prompt that [regenerate] sends for a report, in a state. *)
Lemma regenerate_run self vr st :
  is_valid (validation_report vr) = false ->
  regenerate self vr st
  = let prompt := ODRL_REGENERATION_PROMPT (utc_today (world st))
                    (to_learning_prompt (validation_report vr)) in
    let st' w := {| world := w; trace := trace st ++ [EvInvoke prompt] |} in
    match llm_invoke prompt (world st) with
    | (inr response, w) =>
        (Returned {| rr_odrl_turtle := _clean_turtle response;
                     regenerated := true;
                     original_issues :=
                       Some (map issue_dict (issues (validation_report vr))) |}, st' w)
    | (inl e, w) => (Raised (TransducerError e), st' w)
    end.
Proof.
  intros Hinvalid. unfold regenerate. rewrite Hinvalid.
  unfold bind, record, lift, lift_fallible, ret. simpl.
  destruct (llm_invoke _ (world st)) as [[e|response] w]; reflexivity.
Qed.

(** C10. For a validation result whose report is valid, [regenerate]
    returns the report's document text unchanged with [regenerated] false,
    and leaves the state as it was: the world is untouched and the trace has
    no new call of the language model. *)
Theorem regenerate_valid_report_unchanged (self : ValidatorAgent)
    (vr : validation_result) (st : mstate World) :
  is_valid (validation_report vr) = true ->
  regenerate self vr st
  = (Returned {| rr_odrl_turtle := generated_kg (validation_report vr);
                 regenerated := false;
                 original_issues := None |}, st).
Proof. intros Hvalid. unfold regenerate. rewrite Hvalid. reflexivity. Qed.

(** The attempt record that the body builds. *)
Lemma issue_dicts_nil (l : list ValidationIssue) : map issue_dict l = [] <-> l = [].
Proof. destruct l; simpl; split; done. Qed.

(** The body when the pass finds no issue: [return] with success. *)
Lemma loop_body_valid self policy_text max_attempts v st :
  issues (validate_kg (validator_tool self) policy_text (odrl_turtle v) (world st)).1 = [] ->
  loop_body self policy_text max_attempts v st
  = (Returned (Return
       {| success := true;
          final_odrl := odrl_turtle v;
          attempts := attempt v;
          all_attempts := attempts_so_far v ++
            [ {| ai_attempt := attempt v; ai_is_valid := true; ai_issues := [];
                 ai_odrl_turtle := odrl_turtle v |} ];
          final_issues := None |}),
     {| world := (validate_kg (validator_tool self) policy_text (odrl_turtle v) (world st)).2;
        trace := trace st ++ [EvValidate (odrl_turtle v)] |}).
Proof.
  intros Hnone. unfold loop_body, bind. rewrite validate_run. cbn [validation_report].
  pose proof (proj2 (validate_kg_valid_iff _ _ _ _) Hnone) as Hvalid.
  rewrite Hvalid, Hnone. reflexivity.
Qed.

(** The body when the pass finds issues on the last attempt: [break]. *)
Lemma loop_body_last self policy_text max_attempts v st :
  issues (validate_kg (validator_tool self) policy_text (odrl_turtle v) (world st)).1 <> [] ->
  attempt v = max_attempts ->
  let report := (validate_kg (validator_tool self) policy_text (odrl_turtle v) (world st)).1 in
  let info := {| ai_attempt := attempt v; ai_is_valid := false;
                 ai_issues := map issue_dict (issues report);
                 ai_odrl_turtle := odrl_turtle v |} in
  loop_body self policy_text max_attempts v st
  = (Returned (Break
       {| attempt := attempt v;
          odrl_turtle := odrl_turtle v;
          attempts_so_far := attempts_so_far v ++ [info];
          last_attempt_info := Some info |}),
     {| world := (validate_kg (validator_tool self) policy_text (odrl_turtle v) (world st)).2;
        trace := trace st ++ [EvValidate (odrl_turtle v)] |}).
Proof.
  intros Hsome Hlast. cbv zeta. unfold loop_body, bind. rewrite validate_run.
  cbn [validation_report].
  pose proof (proj2 (validate_kg_invalid_iff _ _ _ _) Hsome) as Hinvalid.
  rewrite Hinvalid. rewrite (proj2 (Z.eqb_eq _ _) Hlast). reflexivity.
Qed.

(** The body when the pass finds issues and attempts remain: the model is
    asked once, and its answer, cleaned, is the document of the next
    attempt; an exception of the model leaves the method. *)
Lemma loop_body_retry self policy_text max_attempts v st :
  issues (validate_kg (validator_tool self) policy_text (odrl_turtle v) (world st)).1 <> [] ->
  attempt v <> max_attempts ->
  let rw := validate_kg (validator_tool self) policy_text (odrl_turtle v) (world st) in
  let info := {| ai_attempt := attempt v; ai_is_valid := false;
                 ai_issues := map issue_dict (issues rw.1);
                 ai_odrl_turtle := odrl_turtle v |} in
  let prompt := ODRL_REGENERATION_PROMPT (utc_today rw.2) (to_learning_prompt rw.1) in
  let st' w := {| world := w;
                  trace := trace st ++ [EvValidate (odrl_turtle v); EvInvoke prompt] |} in
  loop_body self policy_text max_attempts v st
  = match llm_invoke prompt rw.2 with
    | (inr response, w) =>
        (Returned (Continue
           {| attempt := attempt v + 1;
              odrl_turtle := _clean_turtle response;
              attempts_so_far := attempts_so_far v ++ [info];
              last_attempt_info := Some info |}), st' w)
    | (inl e, w) => (Raised (TransducerError e), st' w)
    end.
Proof.
  intros Hsome Hmore. cbv zeta. unfold loop_body, bind. rewrite validate_run.
  cbn [validation_report].
  pose proof (proj2 (validate_kg_invalid_iff _ _ _ _) Hsome) as Hinvalid.
  rewrite Hinvalid. rewrite (proj2 (Z.eqb_neq _ _) Hmore).
  rewrite regenerate_run by done. cbn [validation_report world trace].
  rewrite <- app_assoc. cbn [app].
  destruct (llm_invoke _ _) as [[e|response] w]; reflexivity.
Qed.

(** What a run of the body to its last statement tells. *)
Lemma loop_body_continue self policy_text max_attempts v st v' st' :
  loop_body self policy_text max_attempts v st = (Returned (Continue v'), st') ->
  attempt v' = (attempt v + 1)%Z /\ attempt v <> max_attempts.
Proof.
  intros Hbody.
  destruct (decide (issues (validate_kg (validator_tool self) policy_text
                              (odrl_turtle v) (world st)).1 = [])) as [Hnone|Hsome].
  { rewrite loop_body_valid in Hbody by done. discriminate. }
  destruct (decide (attempt v = max_attempts)) as [Hlast|Hmore].
  { rewrite loop_body_last in Hbody by done. discriminate. }
  rewrite loop_body_retry in Hbody by done. cbv zeta in Hbody.
  destruct (llm_invoke _ _) as [[e|response] w]; [discriminate|].
  injection Hbody as <- _. done.
Qed.

End AgentSteps.

(** ** The agent: the loop *)

Section AgentLoop.
Import PyStr ValidationTool Agent.
Context {World : Type} {C : Collaborators World}.

#[local] Opaque ODRL_REGENERATION_PROMPT to_learning_prompt _clean_turtle.

(** One unfolding of the loop whose condition holds. *)
Lemma while_loop_unfold fuel self policy_text max_attempts v st :
  (attempt v <= max_attempts)%Z ->
  while_loop (S fuel) self policy_text max_attempts v st
  = match loop_body self policy_text max_attempts v st with
    | (Returned (Continue v'), st') => while_loop fuel self policy_text max_attempts v' st'
    | (Returned (Break v'), st') => (Returned (inl v'), st')
    | (Returned (Return r), st') => (Returned (inr r), st')
    | (Raised e, st') => (Raised e, st')
    | (OutOfFuel, st') => (OutOfFuel, st')
    end.
Proof.
  intros Hle. cbn [while_loop]. rewrite (proj2 (Z.leb_le _ _) Hle). unfold bind.
  destruct (loop_body _ _ _ _ _) as [[[v'|v'|r]|e|] st']; reflexivity.
Qed.

(** The loop with enough fuel: it is left by [return] after a pass without
    issues, by [break] on the last attempt after a pass with issues, or by an
    exception of the model; it does not run out of fuel. *)
Lemma while_loop_exits self policy_text max_attempts fuel v st :
  (attempt v <= max_attempts)%Z ->
  Z.to_nat (max_attempts - attempt v) < fuel ->
  match (while_loop fuel self policy_text max_attempts v st).1 with
  | Returned (inr r) =>
      success r = true /\ final_issues r = None
      /\ (attempt v <= attempts r <= max_attempts)%Z
      /\ exists info, last (all_attempts r) = Some info
           /\ ai_attempt info = attempts r /\ ai_issues info = []
  | Returned (inl v') =>
      attempt v' = max_attempts
      /\ exists info, last_attempt_info v' = Some info
           /\ last (attempts_so_far v') = Some info
           /\ ai_attempt info = max_attempts /\ ai_issues info <> []
  | Raised e => exists text, e = TransducerError text
  | OutOfFuel => False
  end.
Proof.
  revert v st. induction fuel as [|fuel IH]; intros v st Hle Hfuel; [lia|].
  rewrite while_loop_unfold by done.
  destruct (decide (issues (validate_kg (validator_tool self) policy_text
                              (odrl_turtle v) (world st)).1 = [])) as [Hnone|Hsome].
  { rewrite loop_body_valid by done. cbn.
    repeat split; try lia. eexists. rewrite last_snoc. done. }
  destruct (decide (attempt v = max_attempts)) as [Hlast|Hmore].
  { rewrite loop_body_last by done. cbn.
    split; [done|]. eexists. split; [reflexivity|]. rewrite last_snoc.
    split; [reflexivity|]. cbn. split; [done|]. by rewrite issue_dicts_nil. }
  rewrite loop_body_retry by done. cbv zeta.
  destruct (llm_invoke _ _) as [[e|response] w]; [cbn; eauto|].
  match goal with |- context [while_loop fuel _ _ _ ?v' ?st'] =>
    specialize (IH v' st') end.
  cbn [attempt] in IH.
  destruct (while_loop fuel _ _ _ _ _).1 as [[v'|r]|e|]; cbn in IH |- *.
  - apply IH; lia.
  - destruct IH as (? & ? & ? & ?); [lia..|]. repeat split; try done; lia.
  - apply IH; lia.
  - apply IH; lia.
Qed.

(** C1, as the code has it.  For a positive [max_attempts] the call ends:
    with a result, or with an exception of the language model.  A result has
    [1 <= attempts <= max_attempts].  A failure has [attempts = max_attempts]
    and its last validation pass, the pass numbered [max_attempts], reported
    at least one issue, which [final_issues] repeats.  A success has
    [attempts] equal to the number of the pass that reported no issue; that
    number can be [max_attempts] itself. *)
Theorem attempts_within_ceiling (self : ValidatorAgent) (policy_text doc : string)
    (max_attempts : Z) (st : mstate World) :
  (0 < max_attempts)%Z ->
  match (validate_and_regenerate self policy_text doc max_attempts st).1 with
  | Returned r =>
      (1 <= attempts r <= max_attempts)%Z
      /\ exists info, last (all_attempts r) = Some info
           /\ ai_attempt info = attempts r
           /\ if success r
              then ai_issues info = [] /\ final_issues r = None
              else attempts r = max_attempts /\ ai_issues info <> []
                   /\ final_issues r = Some (ai_issues info)
  | Raised e => exists text, e = TransducerError text
  | OutOfFuel => False
  end.
Proof.
  intros Hpos. unfold validate_and_regenerate, bind.
  pose proof (while_loop_exits self policy_text max_attempts (Z.to_nat max_attempts)
                (initial_vars doc) st) as Hloop.
  cbn [initial_vars attempt] in Hloop.
  destruct (while_loop _ _ _ _ _ _) as [[[v'|r]|e|] st']; cbn in Hloop |- *.
  - destruct Hloop as (Hatt & info & Hinfo & Hlast & Hnum & Hissues); [lia..|].
    unfold after_loop. rewrite Hinfo. cbn.
    split; [lia|]. exists info. done.
  - destruct Hloop as (Hsuccess & Hfinal & Hrange & info & Hlast & Hnum & Hissues); [lia..|].
    unfold ret. cbn. split; [lia|]. exists info. rewrite Hsuccess. done.
  - apply Hloop; lia.
  - apply Hloop; lia.
Qed.

(** A ceiling of zero or less: the loop body never runs, and the statements
    after the loop read the unassigned [attempt_info]. *)
Lemma nonpositive_ceiling_raises (self : ValidatorAgent) (policy_text doc : string)
    (max_attempts : Z) (st : mstate World) :
  (max_attempts <= 0)%Z ->
  validate_and_regenerate self policy_text doc max_attempts st
  = (Raised (UnboundLocalError "attempt_info"), st).
Proof.
  intros Hle. unfold validate_and_regenerate, bind.
  replace (Z.to_nat max_attempts) with 0 by lia. cbn [while_loop initial_vars attempt].
  rewrite (proj2 (Z.leb_gt _ _)) by lia. reflexivity.
Qed.

(** The fuel given to the loop is enough for every ceiling. *)
Lemma validate_and_regenerate_ends (self : ValidatorAgent) (policy_text doc : string)
    (max_attempts : Z) (st : mstate World) :
  (validate_and_regenerate self policy_text doc max_attempts st).1 <> OutOfFuel.
Proof.
  destruct (decide (0 < max_attempts)%Z) as [Hpos|Hle];
    [|by rewrite nonpositive_ceiling_raises by lia].
  unfold validate_and_regenerate, bind.
  pose proof (while_loop_exits self policy_text max_attempts (Z.to_nat max_attempts)
                (initial_vars doc) st) as Hloop.
  cbn [initial_vars attempt] in Hloop.
  destruct (while_loop _ _ _ _ _ _) as [[[v'|r]|e|] st']; cbn in Hloop; try done.
  - destruct Hloop as (_ & info & Hinfo & _); [lia..|].
    unfold after_loop. rewrite Hinfo. done.
  - exfalso. apply Hloop; lia.
Qed.

(** C2. With a ceiling of 3, when the pass on the document and the passes
    on its two regenerated versions all find issues, the call makes exactly
    3 validation passes and exactly 2 calls of the language model and
    returns the failure result.  The model is called with the prompt for
    the first report in the world the first pass left, then with the prompt
    for the second report in the world the second pass left; the state
    returned is the one that the third pass left, so the model is not
    called on the final attempt. *)
Theorem three_passes_two_transducer_calls (self : ValidatorAgent)
    (policy_text doc : string) (st : mstate World)
    (answer1 answer2 : string) (w1 w2 : World) :
  let tool := validator_tool self in
  let pass1 := validate_kg tool policy_text doc (world st) in
  let prompt1 := ODRL_REGENERATION_PROMPT (utc_today pass1.2) (to_learning_prompt pass1.1) in
  let doc2 := _clean_turtle answer1 in
  let pass2 := validate_kg tool policy_text doc2 w1 in
  let prompt2 := ODRL_REGENERATION_PROMPT (utc_today pass2.2) (to_learning_prompt pass2.1) in
  let doc3 := _clean_turtle answer2 in
  let pass3 := validate_kg tool policy_text doc3 w2 in
  let failed k d (pass : ValidationReport * World) :=
    {| ai_attempt := k; ai_is_valid := false;
       ai_issues := map issue_dict (issues pass.1); ai_odrl_turtle := d |} in
  let events :=
    [ EvValidate doc; EvInvoke prompt1; EvValidate doc2; EvInvoke prompt2;
      EvValidate doc3 ] in
  issues pass1.1 <> [] ->
  llm_invoke prompt1 pass1.2 = (inr answer1, w1) ->
  issues pass2.1 <> [] ->
  llm_invoke prompt2 pass2.2 = (inr answer2, w2) ->
  issues pass3.1 <> [] ->
  validate_and_regenerate self policy_text doc 3 st
  = (Returned
       {| success := false;
          final_odrl := doc3;
          attempts := 3;
          all_attempts := [failed 1%Z doc pass1; failed 2%Z doc2 pass2; failed 3%Z doc3 pass3];
          final_issues := Some (map issue_dict (issues pass3.1)) |},
     {| world := pass3.2; trace := trace st ++ events |})
  /\ validation_passes events = 3
  /\ transducer_calls events = 2
  /\ last events = Some (EvValidate doc3).
Proof.
  cbv zeta. intros Hsome1 Hllm1 Hsome2 Hllm2 Hsome3. split; [|done].
  unfold validate_and_regenerate, bind. change (Z.to_nat 3) with 3.
  rewrite while_loop_unfold by (cbn; lia).
  rewrite loop_body_retry by (cbn [initial_vars attempt odrl_turtle]; done).
  cbv zeta. cbn [initial_vars attempt odrl_turtle attempts_so_far trace world].
  rewrite Hllm1.
  rewrite while_loop_unfold by (cbn; lia).
  rewrite loop_body_retry by (cbn [attempt odrl_turtle world]; done).
  cbv zeta. cbn [attempt odrl_turtle attempts_so_far trace world].
  rewrite Hllm2.
  rewrite while_loop_unfold by (cbn; lia).
  rewrite loop_body_last by (cbn [attempt odrl_turtle world]; done).
  cbv zeta. unfold after_loop, ret.
  cbn [attempt odrl_turtle attempts_so_far last_attempt_info trace world ai_issues].
  rewrite <- !app_assoc. reflexivity.
Qed.

(** From the head of a later iteration the loop goes on as it does from the
    start, with fuel to spare. *)
Lemma while_loop_from_head self policy_text max_attempts v0 st0 v st :
  at_loop_head self policy_text max_attempts v0 st0 v st ->
  forall fuel0, Z.to_nat (max_attempts - attempt v0) < fuel0 ->
  exists fuel, Z.to_nat (max_attempts - attempt v) < fuel
    /\ while_loop fuel0 self policy_text max_attempts v0 st0
       = while_loop fuel self policy_text max_attempts v st.
Proof.
  induction 1 as [|v st v' st' Hhead IH Hle Hbody]; intros fuel0 Hfuel0; [eauto|].
  destruct (IH fuel0 Hfuel0) as (fuel & Hfuel & Heq).
  destruct (loop_body_continue _ _ _ _ _ _ _ Hbody) as [Hnext Hmore].
  destruct fuel as [|fuel]; [lia|].
  exists fuel. split; [lia|].
  rewrite Heq, while_loop_unfold by done. rewrite Hbody. reflexivity.
Qed.

(** C3. If the loop stands at the head of attempt [k = attempt v], with [k]
    no more than the ceiling, and the validation pass of that attempt
    reports no issue, then the call returns at once with success, with
    [attempts = k] and the document of that attempt.  The state returned is
    the state that this one pass left: the world is the one the pass gave
    back and the trace gains only the pass, so the language model is not
    called again. *)
Theorem conformant_attempt_ends_session (self : ValidatorAgent)
    (policy_text doc : string) (max_attempts : Z) (st0 : mstate World)
    (v : loop_vars) (st : mstate World) :
  at_loop_head self policy_text max_attempts (initial_vars doc) st0 v st ->
  (attempt v <= max_attempts)%Z ->
  issues (validate_kg (validator_tool self) policy_text (odrl_turtle v) (world st)).1 = [] ->
  validate_and_regenerate self policy_text doc max_attempts st0
  = (Returned
       {| success := true;
          final_odrl := odrl_turtle v;
          attempts := attempt v;
          all_attempts := attempts_so_far v ++
            [ {| ai_attempt := attempt v; ai_is_valid := true; ai_issues := [];
                 ai_odrl_turtle := odrl_turtle v |} ];
          final_issues := None |},
     {| world := (validate_kg (validator_tool self) policy_text (odrl_turtle v) (world st)).2;
        trace := trace st ++ [EvValidate (odrl_turtle v)] |})
  /\ transducer_calls (trace st ++ [EvValidate (odrl_turtle v)])
     = transducer_calls (trace st).
Proof.
  intros Hhead Hle Hnone. split.
  - unfold validate_and_regenerate, bind.
    assert (Hstart : (1 <= attempt v)%Z).
    { clear Hle Hnone. induction Hhead as [|v st v' st' _ IH _ Hbody]; [cbn; lia|].
      destruct (loop_body_continue _ _ _ _ _ _ _ Hbody) as [-> _]. lia. }
    destruct (while_loop_from_head _ _ _ _ _ _ _ Hhead (Z.to_nat max_attempts))
      as (fuel & Hfuel & ->); [cbn; lia|].
    destruct fuel as [|fuel]; [lia|].
    rewrite while_loop_unfold, loop_body_valid by done. reflexivity.
  - unfold transducer_calls. rewrite List.filter_app. cbn. by rewrite app_nil_r.
Qed.


End AgentLoop.

(** ** Worked sessions *)

Section AgentExamples.
Import PyStr ValidationTool Agent Scripted.

(** C10 at a report without issues. *)
Lemma regenerate_valid_report_unchanged_witness :
  regenerate (C := collaborators conforming) agent
    {| vr_is_valid := true;
       validation_report :=
         {| user_text := "policy"; generated_kg := conforming_policy; is_valid := true; issues := [] |} |}
    (start [inr "never asked"])
  = (Returned {| rr_odrl_turtle := conforming_policy; regenerated := false; original_issues := None |},
     start [inr "never asked"]).
Proof.
  apply (regenerate_valid_report_unchanged (C := collaborators conforming)).
  reflexivity.
Defined.

(** C1, as the spec states it, fails: with a ceiling of 1 and a document
    that conforms, the call returns [attempts = 1], the ceiling, and the
    final, only, validation pass reported no issue. *)
Lemma success_on_the_last_attempt :
  validate_and_regenerate (C := collaborators conforming) agent "policy" conforming_policy 1 (start [])
  = (Returned
       {| success := true;
          final_odrl := conforming_policy;
          attempts := 1;
          all_attempts :=
            [ {| ai_attempt := 1; ai_is_valid := true; ai_issues := [];
                 ai_odrl_turtle := conforming_policy |} ];
          final_issues := None |},
     {| world := []; trace := [EvValidate conforming_policy] |}).
Proof. vm_compute. reflexivity. Qed.

(** C1 at a session of three attempts that all fail. *)
Lemma attempts_within_ceiling_witness :
  (0 < 3)%Z /\
  match (validate_and_regenerate (C := collaborators (missing_uid policy_without_uid)) agent
           "policy" policy_without_uid 3 (start [inr policy_without_uid; inr policy_without_uid])).1 with
  | Returned r =>
      (1 <= attempts r <= 3)%Z
      /\ exists info, last (all_attempts r) = Some info
           /\ ai_attempt info = attempts r
           /\ if success r
              then ai_issues info = [] /\ final_issues r = None
              else attempts r = 3%Z /\ ai_issues info <> []
                   /\ final_issues r = Some (ai_issues info)
  | Raised e => exists text, e = TransducerError text
  | OutOfFuel => False
  end.
Proof.
  split; [lia|].
  apply (attempts_within_ceiling (C := collaborators (missing_uid policy_without_uid))). lia.
Defined.

(** C2 at [policy_without_uid] with a model scripted to answer twice, each
    time with the same document again: both answers are used up and the
    world is left empty. *)
Lemma three_passes_two_transducer_calls_witness :
  let tool := validator_tool agent in
  let script := [inr policy_without_uid; inr policy_without_uid] in
  let pass1 :=
    validate_kg (C := collaborators (missing_uid policy_without_uid))
      tool "policy" policy_without_uid script in
  let prompt1 := ODRL_REGENERATION_PROMPT "2025-01-01" (to_learning_prompt pass1.1) in
  let doc2 := _clean_turtle policy_without_uid in
  let pass2 :=
    validate_kg (C := collaborators (missing_uid policy_without_uid))
      tool "policy" doc2 [inr policy_without_uid] in
  let prompt2 := ODRL_REGENERATION_PROMPT "2025-01-01" (to_learning_prompt pass2.1) in
  let doc3 := _clean_turtle policy_without_uid in
  let pass3 :=
    validate_kg (C := collaborators (missing_uid policy_without_uid))
      tool "policy" doc3 [] in
  let failed k d (pass : ValidationReport * list (string + string)) :=
    {| ai_attempt := k; ai_is_valid := false;
       ai_issues := map issue_dict (issues pass.1); ai_odrl_turtle := d |} in
  let events :=
    [ EvValidate policy_without_uid; EvInvoke prompt1; EvValidate doc2; EvInvoke prompt2;
      EvValidate doc3 ] in
  (validate_and_regenerate (C := collaborators (missing_uid policy_without_uid)) agent
     "policy" policy_without_uid 3 (start script)
   = (Returned
        {| success := false;
           final_odrl := doc3;
           attempts := 3;
           all_attempts :=
             [ failed 1%Z policy_without_uid pass1; failed 2%Z doc2 pass2;
               failed 3%Z doc3 pass3 ];
           final_issues := Some (map issue_dict (issues pass3.1)) |},
      {| world := pass3.2; trace := trace (start script) ++ events |})
   /\ validation_passes events = 3
   /\ transducer_calls events = 2
   /\ last events = Some (EvValidate doc3))
  /\ pass3.2 = [].
Proof.
  cbv zeta. split; [|reflexivity].
  apply (three_passes_two_transducer_calls
           (C := collaborators (missing_uid policy_without_uid)) agent "policy"
           policy_without_uid (start [inr policy_without_uid; inr policy_without_uid])
           policy_without_uid policy_without_uid [inr policy_without_uid] []).
  - vm_compute. discriminate.
  - reflexivity.
  - vm_compute. discriminate.
  - reflexivity.
  - vm_compute. discriminate.
Defined.

(** The loop of the session on [policy_without_uid] does reach the head of
    its second attempt. *)
Lemma second_attempt_reached :
  at_loop_head (C := collaborators (missing_uid policy_without_uid)) agent "policy" 3
    (initial_vars policy_without_uid) (start [inr conforming_policy])
    second_attempt_vars second_attempt_state.
Proof.
  eapply head_next; [apply head_first | cbn; lia | vm_compute; reflexivity].
Defined.

(** C3 at that session: the second attempt validates, so the call returns
    success with [attempts = 2]; the model was called once, before, and the
    world returned is the one the second pass left, with no answer taken
    from it. *)
Lemma conformant_attempt_ends_session_witness :
  validate_and_regenerate (C := collaborators (missing_uid policy_without_uid)) agent
    "policy" policy_without_uid 3 (start [inr conforming_policy])
  = (Returned
       {| success := true;
          final_odrl := odrl_turtle second_attempt_vars;
          attempts := attempt second_attempt_vars;
          all_attempts := attempts_so_far second_attempt_vars ++
            [ {| ai_attempt := attempt second_attempt_vars; ai_is_valid := true;
                 ai_issues := []; ai_odrl_turtle := odrl_turtle second_attempt_vars |} ];
          final_issues := None |},
     {| world :=
          (validate_kg (C := collaborators (missing_uid policy_without_uid))
             (validator_tool agent) "policy" (odrl_turtle second_attempt_vars)
             (world second_attempt_state)).2;
        trace := trace second_attempt_state
                 ++ [EvValidate (odrl_turtle second_attempt_vars)] |})
  /\ transducer_calls (trace second_attempt_state
                       ++ [EvValidate (odrl_turtle second_attempt_vars)])
     = transducer_calls (trace second_attempt_state).
Proof.
  apply (conformant_attempt_ends_session (C := collaborators (missing_uid policy_without_uid))
           agent "policy" policy_without_uid 3 (start [inr conforming_policy])
           second_attempt_vars second_attempt_state).
  - exact second_attempt_reached.
  - cbn. lia.
  - vm_compute. reflexivity.
Defined.



End AgentExamples.

(** ** The agent: whole sessions *)

Section AgentSessions.
Import PyStr ValidationTool Agent.
Context {World : Type} {C : Collaborators World}.

#[local] Opaque ODRL_REGENERATION_PROMPT to_learning_prompt _clean_turtle.

(** A step in front of a path to a loop head. *)
Lemma at_loop_head_front self policy_text max_attempts v0 st0 v1 st1 v st :
  (attempt v0 <= max_attempts)%Z ->
  loop_body self policy_text max_attempts v0 st0 = (Returned (Continue v1), st1) ->
  at_loop_head self policy_text max_attempts v1 st1 v st ->
  at_loop_head self policy_text max_attempts v0 st0 v st.
Proof.
  intros Hle Hbody. induction 1 as [|v st v' st' _ IH Hle' Hbody'].
  - eapply head_next; [apply head_first | done | done].
  - eapply head_next; [exact IH | done | done].
Qed.

(** The loop with enough fuel ends in the run of the body that does not reach
    its last statement: the run that returns, breaks or raises. *)
Lemma while_loop_last_iteration self policy_text max_attempts fuel v0 st0 :
  (attempt v0 <= max_attempts)%Z ->
  Z.to_nat (max_attempts - attempt v0) < fuel ->
  exists v st,
    at_loop_head self policy_text max_attempts v0 st0 v st
    /\ (attempt v <= max_attempts)%Z
    /\ match loop_body self policy_text max_attempts v st with
       | (Returned (Continue _), _) => False
       | (Returned (Break v'), st') =>
           while_loop fuel self policy_text max_attempts v0 st0 = (Returned (inl v'), st')
       | (Returned (Return r), st') =>
           while_loop fuel self policy_text max_attempts v0 st0 = (Returned (inr r), st')
       | (Raised e, st') =>
           while_loop fuel self policy_text max_attempts v0 st0 = (Raised e, st')
       | (OutOfFuel, _) => False
       end.
Proof.
  revert v0 st0. induction fuel as [|fuel IH]; intros v0 st0 Hle Hfuel; [lia|].
  rewrite while_loop_unfold by done.
  destruct (loop_body self policy_text max_attempts v0 st0) as [[[v1|v1|r]|e|] st1] eqn:Hbody.
  - destruct (loop_body_continue _ _ _ _ _ _ _ Hbody) as [Hnext Hmore].
    destruct (IH v1 st1) as (v & st & Hhead & Hle' & Hlast); [lia..|].
    exists v, st. split; [by eapply at_loop_head_front|]. done.
  - exists v0, st0. split; [apply head_first|]. by rewrite Hbody.
  - exists v0, st0. split; [apply head_first|]. by rewrite Hbody.
  - exists v0, st0. split; [apply head_first|]. by rewrite Hbody.
  - exfalso.
    destruct (decide (issues (validate_kg (validator_tool self) policy_text
                                (odrl_turtle v0) (world st0)).1 = [])) as [Hnone|Hsome].
    { rewrite loop_body_valid in Hbody by done. discriminate. }
    destruct (decide (attempt v0 = max_attempts)) as [Hlast|Hmore].
    { rewrite loop_body_last in Hbody by done. discriminate. }
    rewrite loop_body_retry in Hbody by done. cbv zeta in Hbody.
    destruct (llm_invoke _ _) as [[e|response] w]; discriminate.
Qed.

(** What holds at every loop head of a session on the document [doc]: the
    records so far are numbered from 1, all of failed passes, the first on
    [doc]; [attempt_info] is the last of them; and the trace has gained one
    pass and one call of the model for each. *)
Lemma loop_head_invariant self policy_text max_attempts doc st0 v st :
  at_loop_head self policy_text max_attempts (initial_vars doc) st0 v st ->
  attempt v = (Z.of_nat (length (attempts_so_far v)) + 1)%Z
  /\ map ai_attempt (attempts_so_far v) = seqZ 1 (Z.of_nat (length (attempts_so_far v)))
  /\ Forall (fun i => ai_is_valid i = false /\ ai_issues i <> []) (attempts_so_far v)
  /\ last_attempt_info v = last (attempts_so_far v)
  /\ head (map ai_odrl_turtle (attempts_so_far v) ++ [odrl_turtle v]) = Some doc
  /\ (attempts_so_far v <> [] -> (attempt v <= max_attempts)%Z)
  /\ exists events,
       trace st = trace st0 ++ events
       /\ validation_passes events = length (attempts_so_far v)
       /\ transducer_calls events = length (attempts_so_far v).
Proof.
  induction 1 as [|v st v' st' _ IH Hle Hbody].
  { cbn. repeat split; try done. exists []. by rewrite app_nil_r. }
  destruct IH as (Hnum & Hseq & Hfailed & Hinfo & Hfirst & _ & events & Htrace & Hpasses & Hcalls).
  destruct (decide (issues (validate_kg (validator_tool self) policy_text
                              (odrl_turtle v) (world st)).1 = [])) as [Hnone|Hsome].
  { rewrite loop_body_valid in Hbody by done. discriminate. }
  destruct (decide (attempt v = max_attempts)) as [Hlast|Hmore].
  { rewrite loop_body_last in Hbody by done. discriminate. }
  rewrite loop_body_retry in Hbody by done. cbv zeta in Hbody.
  destruct (llm_invoke _ _) as [[e|response] w]; [discriminate|].
  injection Hbody as <- <-. cbn [attempt attempts_so_far last_attempt_info odrl_turtle trace].
  rewrite length_app, map_app, last_snoc. cbn [length map].
  replace (length (attempts_so_far v) + 1) with (S (length (attempts_so_far v))) by lia.
  rewrite seqZ_S. cbn [ai_attempt ai_odrl_turtle].
  split; [lia|]. split; [f_equal; [done | f_equal; lia]|].
  split.
  { apply Forall_app. split; [done|]. apply Forall_singleton. cbn.
    split; [done|]. by rewrite issue_dicts_nil. }
  split; [done|]. split.
  { destruct (attempts_so_far v); cbn in *; congruence. }
  split; [lia|].
  eexists (events ++ [_; _]). split; [by rewrite Htrace, <- app_assoc|].
  unfold validation_passes, transducer_calls in *.
  rewrite !List.filter_app, !length_app. cbn. lia.
Qed.

(** X1. The records of a returned session: [all_attempts] is numbered
    1, 2, ..., [attempts], so it has [attempts] entries; every entry before
    the last is a failed pass with issues; the last entry is valid exactly
    when the session succeeded and holds the document returned; the first
    entry holds the document the caller passed in. *)
Theorem attempt_records_numbered (self : ValidatorAgent) (policy_text doc : string)
    (max_attempts : Z) (st0 : mstate World) :
  match (validate_and_regenerate self policy_text doc max_attempts st0).1 with
  | Returned r =>
      map ai_attempt (all_attempts r) = seqZ 1 (attempts r)
      /\ (exists earlier final,
            all_attempts r = earlier ++ [final]
            /\ Forall (fun i => ai_is_valid i = false /\ ai_issues i <> []) earlier
            /\ ai_is_valid final = success r
            /\ ai_odrl_turtle final = final_odrl r)
      /\ head (map ai_odrl_turtle (all_attempts r)) = Some doc
  | _ => True
  end.
Proof.
  destruct (decide (0 < max_attempts)%Z) as [Hpos|Hle];
    [|by rewrite nonpositive_ceiling_raises by lia].
  unfold validate_and_regenerate, bind.
  destruct (while_loop_last_iteration self policy_text max_attempts (Z.to_nat max_attempts)
              (initial_vars doc) st0) as (v & st & Hhead & Hle & Hlast); [cbn; lia..|].
  destruct (loop_head_invariant _ _ _ _ _ _ _ Hhead)
    as (Hnum & Hseq & Hfailed & Hinfo & Hfirst & _ & _).
  assert (Hnumbers : forall info, ai_attempt info = attempt v ->
            map ai_attempt (attempts_so_far v ++ [info]) = seqZ 1 (attempt v)).
  { intros info Hinfo_num. rewrite map_app, Hseq, Hnum. cbn [map].
    replace (Z.of_nat (length (attempts_so_far v)) + 1)%Z
      with (Z.of_nat (S (length (attempts_so_far v)))) by lia.
    rewrite seqZ_S. do 2 f_equal. lia. }
  assert (Hdoc : forall info, ai_odrl_turtle info = odrl_turtle v ->
            head (map ai_odrl_turtle (attempts_so_far v ++ [info])) = Some doc).
  { intros info Hinfo_doc. by rewrite map_app; cbn [map]; rewrite Hinfo_doc. }
  destruct (decide (issues (validate_kg (validator_tool self) policy_text
                              (odrl_turtle v) (world st)).1 = [])) as [Hnone|Hsome].
  { rewrite loop_body_valid in Hlast by done. rewrite Hlast. cbn.
    split; [by apply Hnumbers|]. split; [|by apply Hdoc].
    eexists _, _. split; [reflexivity|]. done. }
  destruct (decide (attempt v = max_attempts)) as [Hend|Hmore].
  { rewrite loop_body_last in Hlast by done. cbv zeta in Hlast. rewrite Hlast.
    unfold after_loop. cbn. rewrite <- Hend.
    split; [by apply Hnumbers|]. split; [|by apply Hdoc].
    eexists _, _. split; [reflexivity|]. done. }
  rewrite loop_body_retry in Hlast by done. cbv zeta in Hlast.
  destruct (llm_invoke _ _) as [[e|response] w]; [|done].
  by rewrite Hlast.
Qed.

(** The path to a loop head, read on the collaborators' side: one round for
    each record made so far. *)
Lemma loop_head_rounds self policy_text max_attempts doc st0 v st :
  at_loop_head self policy_text max_attempts (initial_vars doc) st0 v st ->
  rounds (validator_tool self) policy_text doc (world st0)
    (length (attempts_so_far v)) (odrl_turtle v) (world st).
Proof.
  induction 1 as [|v st v' st' _ IH Hle Hbody]; [apply rounds_O|].
  destruct (decide (issues (validate_kg (validator_tool self) policy_text
                              (odrl_turtle v) (world st)).1 = [])) as [Hnone|Hsome].
  { rewrite loop_body_valid in Hbody by done. discriminate. }
  destruct (decide (attempt v = max_attempts)) as [Hlast|Hmore].
  { rewrite loop_body_last in Hbody by done. discriminate. }
  rewrite loop_body_retry in Hbody by done. cbv zeta in Hbody.
  destruct (llm_invoke _ _) as [[e|response] w] eqn:Hllm; [discriminate|].
  injection Hbody as <- <-. cbn [attempts_so_far odrl_turtle world].
  rewrite length_app. cbn [length].
  replace (length (attempts_so_far v) + 1) with (S (length (attempts_so_far v))) by lia.
  by eapply rounds_S.
Qed.

(** X2. The calls of a session, for each way it can end, read on the
    collaborators' side.  A returned result with [attempts = n + 1] comes
    after exactly [n] rounds, each one validation pass with issues and one
    answered call of the language model, and one more pass, on the document
    returned; the world returned is the world that this last pass left.
    When the model's exception ends the session, it comes after [n] rounds
    and one more pass with issues, from the call with the prompt for that
    pass, with [n + 1] below the ceiling; the world is the one that call
    left.  The trace has one mark for each of these passes and calls.  An
    [UnboundLocalError] leaves the state as it was, and the loop never runs
    out of fuel. *)
Theorem session_passes_and_calls (self : ValidatorAgent) (policy_text doc : string)
    (max_attempts : Z) (st0 : mstate World) :
  let tool := validator_tool self in
  match validate_and_regenerate self policy_text doc max_attempts st0 with
  | (Returned r, st') =>
      exists n d w events,
        rounds tool policy_text doc (world st0) n d w
        /\ attempts r = (Z.of_nat n + 1)%Z
        /\ final_odrl r = d
        /\ st' = {| world := (validate_kg tool policy_text d w).2;
                    trace := trace st0 ++ events |}
        /\ validation_passes events = S n
        /\ transducer_calls events = n
        /\ last events = Some (EvValidate d)
  | (Raised (TransducerError e), st') =>
      exists n d w events,
        let pass := validate_kg tool policy_text d w in
        let prompt :=
          ODRL_REGENERATION_PROMPT (utc_today pass.2) (to_learning_prompt pass.1) in
        rounds tool policy_text doc (world st0) n d w
        /\ (Z.of_nat n + 1 < max_attempts)%Z
        /\ issues pass.1 <> []
        /\ llm_invoke prompt pass.2 = (inl e, world st')
        /\ trace st' = trace st0 ++ events
        /\ validation_passes events = S n
        /\ transducer_calls events = S n
        /\ last events = Some (EvInvoke prompt)
  | (Raised (UnboundLocalError _), st') => st' = st0
  | (OutOfFuel, _) => False
  end.
Proof.
  cbv zeta.
  destruct (decide (0 < max_attempts)%Z) as [Hpos|Hle];
    [|by rewrite nonpositive_ceiling_raises by lia].
  unfold validate_and_regenerate, bind.
  destruct (while_loop_last_iteration self policy_text max_attempts (Z.to_nat max_attempts)
              (initial_vars doc) st0) as (v & st & Hhead & Hle & Hlast); [cbn; lia..|].
  destruct (loop_head_invariant _ _ _ _ _ _ _ Hhead)
    as (Hnum & _ & _ & _ & _ & _ & events & Htrace & Hpasses & Hcalls).
  pose proof (loop_head_rounds _ _ _ _ _ _ _ Hhead) as Hrounds.
  unfold validation_passes, transducer_calls in *.
  destruct (decide (issues (validate_kg (validator_tool self) policy_text
                              (odrl_turtle v) (world st)).1 = [])) as [Hnone|Hsome].
  { rewrite loop_body_valid in Hlast by done. rewrite Hlast. cbn.
    eexists _, _, _, (events ++ [EvValidate (odrl_turtle v)]).
    split; [exact Hrounds|]. split; [lia|]. split; [done|].
    split; [by rewrite Htrace, <- app_assoc|].
    rewrite !List.filter_app, !length_app, last_snoc. cbn. repeat split; lia. }
  destruct (decide (attempt v = max_attempts)) as [Hend|Hmore].
  { rewrite loop_body_last in Hlast by done. cbv zeta in Hlast. rewrite Hlast.
    unfold after_loop. cbn.
    eexists _, _, _, (events ++ [EvValidate (odrl_turtle v)]).
    split; [exact Hrounds|]. split; [lia|]. split; [done|].
    split; [by rewrite Htrace, <- app_assoc|].
    rewrite !List.filter_app, !length_app, last_snoc. cbn. repeat split; lia. }
  rewrite loop_body_retry in Hlast by done. cbv zeta in Hlast.
  destruct (llm_invoke _ _) as [[e|response] w] eqn:Hllm; [|done].
  rewrite Hlast. cbn.
  eexists _, _, _, (events ++ [_; _]).
  split; [exact Hrounds|]. split; [lia|]. split; [done|]. split; [exact Hllm|].
  split; [by rewrite Htrace, <- app_assoc|].
  rewrite !List.filter_app, !length_app. cbn.
  split; [lia|]. split; [lia|]. by rewrite last_app.
Qed.

(** X3. The session raises [UnboundLocalError] exactly when the ceiling is
    zero or negative: then it raises it for [attempt_info], at once, with no
    pass and no call made. *)
Theorem unbound_local_error_iff_no_attempt (self : ValidatorAgent)
    (policy_text doc : string) (max_attempts : Z) (st0 : mstate World) :
  ((exists name, (validate_and_regenerate self policy_text doc max_attempts st0).1
                 = Raised (UnboundLocalError name))
   <-> (max_attempts <= 0)%Z)
  /\ ((max_attempts <= 0)%Z ->
      validate_and_regenerate self policy_text doc max_attempts st0
      = (Raised (UnboundLocalError "attempt_info"), st0)).
Proof.
  split; [|apply nonpositive_ceiling_raises]. split.
  - intros [name Hraised].
    destruct (decide (0 < max_attempts)%Z) as [Hpos|Hle]; [|lia]. exfalso.
    revert Hraised. unfold validate_and_regenerate, bind.
    pose proof (while_loop_exits self policy_text max_attempts (Z.to_nat max_attempts)
                  (initial_vars doc) st0) as Hloop.
    cbn [initial_vars attempt] in Hloop.
    destruct (while_loop _ _ _ _ _ _) as [[[v'|r]|e|] st']; cbn in Hloop; try done.
    + destruct Hloop as (_ & info & Hinfo & _); [lia..|].
      unfold after_loop. rewrite Hinfo. done.
    + destruct Hloop as [text ->]; [lia..|]. done.
  - intros Hle. rewrite nonpositive_ceiling_raises by done. eauto.
Qed.

(** X4. An exception of the language model leaves the session as it is
    raised: when the loop stands at the head of an attempt that is not the
    last, the pass there finds issues and the model fails on the prompt for
    them, the session raises that error; the trace ends with that pass and
    that call, and nothing of the attempts so far is returned. *)
Theorem transducer_error_ends_session (self : ValidatorAgent)
    (policy_text doc : string) (max_attempts : Z) (st0 : mstate World)
    (v : loop_vars) (st : mstate World) (e : string) (w' : World) :
  let rw := validate_kg (validator_tool self) policy_text (odrl_turtle v) (world st) in
  let prompt := ODRL_REGENERATION_PROMPT (utc_today rw.2) (to_learning_prompt rw.1) in
  at_loop_head self policy_text max_attempts (initial_vars doc) st0 v st ->
  (attempt v < max_attempts)%Z ->
  issues rw.1 <> [] ->
  llm_invoke prompt rw.2 = (inl e, w') ->
  validate_and_regenerate self policy_text doc max_attempts st0
  = (Raised (TransducerError e),
     {| world := w';
        trace := trace st ++ [EvValidate (odrl_turtle v); EvInvoke prompt] |}).
Proof.
  cbv zeta. intros Hhead Hlt Hsome Hllm. unfold validate_and_regenerate, bind.
  assert (Hstart : (1 <= attempt v)%Z).
  { destruct (loop_head_invariant _ _ _ _ _ _ _ Hhead) as (-> & _). lia. }
  destruct (while_loop_from_head _ _ _ _ _ _ _ Hhead (Z.to_nat max_attempts))
    as (fuel & Hfuel & ->); [cbn; lia|].
  destruct fuel as [|fuel]; [lia|].
  rewrite while_loop_unfold by lia. rewrite loop_body_retry by (done || lia).
  cbv zeta. rewrite Hllm. reflexivity.
Qed.

End AgentSessions.

(** ** Strings *)

Section StringFacts.
Import PyStr.

(** The two equations of string append, whose unfolding the library blocks. *)
Lemma append_cons c (s t : string) : String c s +:+ t = String c (s +:+ t).
Proof. reflexivity. Qed.

Lemma append_nil_l (s : string) : "" +:+ s = s.
Proof. reflexivity. Qed.

Lemma append_nil_r (s : string) : s +:+ "" = s.
Proof. induction s as [|c s IH]; [done|]. by rewrite append_cons, IH. Qed.

Lemma append_assoc (a b c : string) : (a +:+ b) +:+ c = a +:+ (b +:+ c).
Proof. induction a as [|x a IH]; [done|]. by rewrite !append_cons, IH. Qed.

Lemma string_of_list_ascii_app (l1 l2 : list Ascii.ascii) :
  String.string_of_list_ascii (l1 ++ l2)
  = String.string_of_list_ascii l1 +:+ String.string_of_list_ascii l2.
Proof.
  induction l1 as [|x l1 IH]; [done|]. cbn [app String.string_of_list_ascii].
  by rewrite append_cons, IH.
Qed.

(** [String.prefix], one character at a time. *)
Lemma prefix_cons a s1 b s2 :
  String.prefix (String a s1) (String b s2)
  = bool_decide (a = b) && String.prefix s1 s2.
Proof.
  cbn [String.prefix]. destruct (Ascii.ascii_dec a b) as [->|Hne].
  - by rewrite bool_decide_eq_true_2.
  - by rewrite bool_decide_eq_false_2.
Qed.

(** A prefix of a string is a prefix of every extension of it. *)
Lemma prefix_app p s t : String.prefix p s = true -> String.prefix p (s +:+ t) = true.
Proof.
  revert s. induction p as [|a p IH]; [intros s _; by destruct (s +:+ t)|].
  intros [|b s]; [done|]. rewrite append_cons, !prefix_cons.
  intros [Hab Hp]%andb_true_iff. rewrite Hab. cbn [andb]. by apply IH.
Qed.

(** The test [sub in s], one character of [s] at a time. *)
Lemma contains_nil sub : sub <> "" -> contains sub "" = false.
Proof. by destruct sub. Qed.

Lemma contains_cons sub c s :
  contains sub (String c s) = String.prefix sub (String c s) || contains sub s.
Proof.
  unfold contains. cbn [String.index].
  destruct (String.prefix sub (String c s)); [done|].
  by destruct (String.index 0 sub s).
Qed.

(** A string without [sub] has no suffix and no prefix with [sub]. *)
Lemma contains_suffix sub p s : contains sub (p +:+ s) = false -> contains sub s = false.
Proof.
  induction p as [|c p IH]; [done|]. rewrite append_cons, contains_cons.
  intros [_ H]%orb_false_iff. by apply IH.
Qed.

Lemma contains_prefix sub s t :
  sub <> "" -> contains sub (s +:+ t) = false -> contains sub s = false.
Proof.
  intros Hsub. induction s as [|c s IH]; [intros _; by apply contains_nil|].
  rewrite append_cons, !contains_cons. intros [Hp H]%orb_false_iff.
  apply orb_false_iff. split; [|by apply IH].
  destruct (String.prefix sub (String c s)) eqn:Hpre; [|done].
  apply (prefix_app _ _ t) in Hpre. rewrite append_cons in Hpre. congruence.
Qed.

(** Splitting a string that does not hold the separator gives the string
    back, after what was read before. *)
Lemma split_scan_absent sep cur s :
  contains sep s = false ->
  split_scan sep 0 cur s = [String.string_of_list_ascii (rev cur) +:+ s].
Proof.
  revert cur. induction s as [|c s IH]; intros cur Habsent.
  - cbn [split_scan]. by rewrite append_nil_r.
  - rewrite contains_cons in Habsent. apply orb_false_iff in Habsent as [Hpre Habsent].
    cbn [split_scan]. rewrite Hpre, IH by done. cbn [rev].
    by rewrite string_of_list_ascii_app, append_assoc.
Qed.

(** [join] of a list with something after its head. *)
Lemma join_cons sep x l : l <> [] -> join sep (x :: l) = x +:+ sep +:+ join sep l.
Proof. by destruct l. Qed.

Lemma prefix_self_app (s t : string) : String.prefix s (s +:+ t) = true.
Proof.
  induction s as [|c s IH]; [by destruct t|].
  rewrite append_cons, prefix_cons, IH. by rewrite bool_decide_eq_true_2.
Qed.

(** A text occurs in what starts with it, in what it occurs in the front
    of, and in what it occurs in the back of. *)
Lemma contains_self_app (sub t : string) : sub <> "" -> contains sub (sub +:+ t) = true.
Proof.
  destruct sub as [|c sub]; [done|]. intros _.
  rewrite append_cons, contains_cons, <- append_cons. by rewrite prefix_self_app.
Qed.

Lemma contains_self (sub : string) : sub <> "" -> contains sub sub = true.
Proof.
  intros Hsub. rewrite <- (append_nil_r sub) at 2. by apply contains_self_app.
Qed.

Lemma contains_app_l (sub s t : string) :
  sub <> "" -> contains sub s = true -> contains sub (s +:+ t) = true.
Proof.
  intros Hsub Hs. destruct (contains sub (s +:+ t)) eqn:Hst; [done|].
  by rewrite (contains_prefix _ _ _ Hsub Hst) in Hs.
Qed.

Lemma contains_app_r (sub p s : string) :
  contains sub s = true -> contains sub (p +:+ s) = true.
Proof.
  intros Hs. destruct (contains sub (p +:+ s)) eqn:Hps; [done|].
  by rewrite (contains_suffix _ _ _ Hps) in Hs.
Qed.

(** A text that occurs in a line occurs in the lines joined. *)
Lemma contains_join (sub sep line : string) (lines : list string) :
  sub <> "" -> line ∈ lines -> contains sub line = true ->
  contains sub (join sep lines) = true.
Proof.
  intros Hsub Hin Hline. induction lines as [|x lines IH]; [by apply elem_of_nil in Hin|].
  destruct lines as [|y lines].
  - apply list_elem_of_singleton in Hin as ->. done.
  - rewrite join_cons by done. apply elem_of_cons in Hin as [->|Hin].
    + by apply contains_app_l.
    + apply contains_app_r, contains_app_r. by apply IH.
Qed.

Lemma elem_of_concat {A} (x : A) (xs : list A) (xss : list (list A)) :
  x ∈ xs -> xs ∈ xss -> x ∈ concat xss.
Proof.
  intros Hx Hxs. induction xss as [|ys xss IH]; [by apply elem_of_nil in Hxs|].
  cbn [concat]. apply elem_of_app. apply elem_of_cons in Hxs as [->|Hxs]; auto.
Qed.

End StringFacts.

(** ** The validation tool: reports and violations *)

Section ToolReports.
Import PyStr ValidationTool.
Context {O : SetIteration}.

(** *** Grouping of issues *)

(** Adding an issue keeps every issue: the groups, read in order, hold the
    issues they held before and the new one. *)
Lemma group_add_Permutation issue groups :
  concat (map snd (group_add issue groups)) ≡ₚ concat (map snd groups) ++ [issue].
Proof.
  induction groups as [|[t l] groups IH]; [done|]. cbn [group_add].
  destruct (String.eqb t (issue_type issue)); cbn [map concat snd].
  - rewrite <- !app_assoc. f_equiv. apply Permutation_app_comm.
  - by rewrite IH, app_assoc.
Qed.

(** The keys after adding an issue: a new key goes to the end. *)
Lemma group_add_keys issue groups :
  map fst (group_add issue groups)
  = if decide (issue_type issue ∈ map fst groups) then map fst groups
    else map fst groups ++ [issue_type issue].
Proof.
  induction groups as [|[t l] groups IH]; [done|]. cbn [group_add].
  destruct (String.eqb_spec t (issue_type issue)) as [->|Hne]; cbn [map fst].
  - rewrite decide_True; [done|left].
  - rewrite IH. destruct (decide (issue_type issue ∈ map fst groups)) as [Hin|Hout].
    + rewrite decide_True; [done|by right].
    + rewrite decide_False; [done|]. rewrite elem_of_cons. intros [Heq|Hin]; auto.
Qed.

(** The groups after adding an issue, when no key occurs twice: the group of
    the issue's type gains the issue at its end, or is made for it; every
    other group stays. *)
Lemma group_add_elem_of issue groups t l :
  NoDup (map fst groups) ->
  (t, l) ∈ group_add issue groups ->
  (t <> issue_type issue /\ (t, l) ∈ groups)
  \/ (t = issue_type issue
      /\ ((exists l0, (t, l0) ∈ groups /\ l = l0 ++ [issue])
          \/ ((t ∉ map fst groups) /\ l = [issue]))).
Proof.
  induction groups as [|[t0 l0] groups IH]; cbn [group_add map fst].
  - intros _ [= -> ->]%list_elem_of_singleton. right. split; [done|]. right.
    split; [apply not_elem_of_nil | done].
  - intros [Hfresh Hnd]%NoDup_cons.
    destruct (String.eqb_spec t0 (issue_type issue)) as [->|Hne].
    + intros [[= -> ->]|Hin]%elem_of_cons.
      * right. split; [done|]. left. exists l0. split; [left | done].
      * left. split; [|by right]. intros ->. apply Hfresh.
        by apply (list_elem_of_fmap_2 fst) in Hin.
    + intros [[= -> ->]|Hin]%elem_of_cons.
      * left. split; [done | left].
      * destruct (IH Hnd Hin) as [[? ?]|[-> [(l1 & ? & ->)|[? ->]]]].
        -- left. split; [done | by right].
        -- right. split; [done|]. left. exists l1. split; [by right | done].
        -- right. split; [done|]. right. split; [|done].
           rewrite elem_of_cons. intros [Heq|Hin']; auto.
Qed.

(** A filter that no element passes. *)
Lemma filter_none {A} (P : A -> Prop) `{!forall x, Decision (P x)} (l : list A) :
  (forall x, x ∈ l -> ~ P x) -> filter P l = [].
Proof.
  induction l as [|x l IH]; intros Hnone; [done|].
  rewrite filter_cons_False by (apply Hnone; left).
  apply IH. intros y Hy. apply Hnone. by right.
Qed.

(** The loop of [_group_issues_by_type] from any groups [g] that hold, type
    by type and in order, the issues [seen] so far. *)
Lemma group_fold_invariant (rest seen : list ValidationIssue)
    (g : list (string * list ValidationIssue)) :
  NoDup (map fst g) ->
  (forall t l, (t, l) ∈ g -> l <> [] /\ l = filter (fun i => issue_type i = t) seen) ->
  (forall i, i ∈ seen -> issue_type i ∈ map fst g) ->
  let g' := fold_left (fun groups issue => group_add issue groups) rest g in
  NoDup (map fst g')
  /\ (forall t l, (t, l) ∈ g' ->
        l <> [] /\ l = filter (fun i => issue_type i = t) (seen ++ rest))
  /\ (forall i, i ∈ seen ++ rest -> issue_type i ∈ map fst g').
Proof.
  revert seen g. induction rest as [|issue rest IH]; intros seen g Hnd Hgroups Hkeys.
  { cbn. by rewrite app_nil_r. }
  cbn [fold_left]. cbv zeta.
  replace (seen ++ issue :: rest) with ((seen ++ [issue]) ++ rest)
    by (by rewrite <- app_assoc).
  apply IH.
  - rewrite group_add_keys. destruct (decide (issue_type issue ∈ map fst g)); [done|].
    apply NoDup_app. split; [done|]. split; [|apply NoDup_singleton].
    intros x Hx ->%list_elem_of_singleton. done.
  - intros t l Hin. rewrite filter_app.
    destruct (group_add_elem_of _ _ _ _ Hnd Hin) as [[Hne Hold]|[-> [(l0 & Hold & ->)|[Hnew ->]]]].
    + destruct (Hgroups _ _ Hold) as [Hne_nil ->]. split; [done|].
      rewrite filter_cons_False, filter_nil, app_nil_r; done.
    + destruct (Hgroups _ _ Hold) as [_ ->]. split; [by destruct (filter _ seen)|].
      by rewrite filter_cons_True, filter_nil.
    + split; [done|]. rewrite filter_cons_True, filter_nil by done.
      replace (filter (fun i => issue_type i = issue_type issue) seen) with (@nil ValidationIssue);
        [done|].
      symmetry. apply filter_none. intros i Hi Htype.
      apply Hnew. rewrite <- Htype. by apply Hkeys.
  - intros i [Hi| ->%list_elem_of_singleton]%elem_of_app; rewrite group_add_keys.
    + destruct (decide (issue_type issue ∈ map fst g)); [by apply Hkeys|].
      apply elem_of_app. left. by apply Hkeys.
    + destruct (decide (issue_type issue ∈ map fst g)); [done|].
      apply elem_of_app. right. left.
Qed.

(** X5. [_group_issues_by_type] splits the issues of a report by type
    without losing, repeating or reordering any: no type is a key twice; a
    pair [(t, l)] is a group exactly when [l] is the non-empty list of the
    report's issues of type [t], in the order of the report; and the groups
    read one after the other are a permutation of the issues. *)
Theorem issue_groups_partition (self : ValidationReport) :
  NoDup (map fst (_group_issues_by_type self))
  /\ (forall t l,
        (t, l) ∈ _group_issues_by_type self
        <-> l <> [] /\ l = filter (fun i => issue_type i = t) (issues self))
  /\ concat (map snd (_group_issues_by_type self)) ≡ₚ issues self.
Proof.
  unfold _group_issues_by_type.
  destruct (group_fold_invariant (issues self) [] [])
    as (Hnd & Hgroups & Hkeys); [apply NoDup_nil_2 | by intros t l ?%elem_of_nil
                                 | by intros i ?%elem_of_nil |].
  cbn [app] in *. split; [done|]. split.
  - intros t l. split; [apply Hgroups|]. intros [Hne ->].
    destruct (filter (fun i => issue_type i = t) (issues self)) as [|i l'] eqn:Hfilter; [done|].
    assert (Hi : i ∈ filter (fun i => issue_type i = t) (issues self))
      by (rewrite Hfilter; left).
    apply list_elem_of_filter in Hi as [Htype Hi].
    apply Hkeys in Hi. rewrite Htype in Hi.
    apply list_elem_of_fmap in Hi as ([t' l0] & -> & Hin).
    destruct (Hgroups _ _ Hin) as [_ Heq]. cbn [fst] in *. rewrite Hfilter in Heq.
    by subst.
  - assert (Hgen : forall rest g,
              concat (map snd (fold_left (fun groups issue => group_add issue groups) rest g))
              ≡ₚ concat (map snd g) ++ rest).
    { induction rest as [|issue rest IH]; intros g; cbn [fold_left].
      - by rewrite app_nil_r.
      - rewrite IH, group_add_Permutation, <- app_assoc. done. }
    by rewrite Hgen.
Qed.

(** *** The value of a violation *)

(** The objects of the [sh:value] pairs of a result, in order. *)
Lemma violation_of_result_value (po : shacl_result) :
  violation_of_result po !! "value"
  = last (omap (fun '(pred, obj) =>
                  match pred with SH_value => Some obj | _ => None end) po).
Proof.
  induction po as [|[pred obj] po IH] using rev_ind; [done|].
  unfold violation_of_result in *. rewrite fold_left_app, omap_app. cbn [fold_left omap].
  destruct pred; cbn; rewrite ?app_nil_r;
    first [ by rewrite lookup_insert_ne | by rewrite lookup_insert_eq, last_snoc | done ].
Qed.

(** X6. The value an issue reports for a SHACL result is the object of the
    result's last [sh:value]; for a result without [sh:value] the two
    structural validators report [not specified] and the compatibility
    validator reports the empty string. *)
Theorem actual_value_of_result (po : shacl_result) :
  let values :=
    omap (fun '(pred, obj) => match pred with SH_value => Some obj | _ => None end) po in
  map actual_value (process_violations PolicyStructureValidator [violation_of_result po])
  = [default "not specified" (last values)]
  /\ map actual_value
       (process_violations ConstraintStructureValidator [violation_of_result po])
     = [default "not specified" (last values)]
  /\ map actual_value
       (process_violations ConstraintCompatibilityValidator [violation_of_result po])
     = [default "" (last values)].
Proof.
  cbv zeta. rewrite <- violation_of_result_value.
  cbn [process_violations PolicyStructureValidator ConstraintStructureValidator
         ConstraintCompatibilityValidator map].
  unfold policy_structure_issue, constraint_structure_issue, compatibility_issue.
  repeat split;
    repeat match goal with |- context [if ?b then _ else _] => destruct b end; done.
Qed.

End ToolReports.

(** ** The validation tool: names, URIs and messages *)

Section ToolNames.
Import PyStr ValidationTool ODRLLeftOperands.
Context {O : SetIteration}.

(** A string that holds [sub] after something passes the test [sub in s]. *)
Lemma contains_intro sub p rest : sub <> "" -> contains sub (p +:+ (sub +:+ rest)) = true.
Proof.
  intros Hsub. induction p as [|c p IH].
  - rewrite append_nil_l. destruct sub as [|a sub]; [done|].
    rewrite append_cons, contains_cons, <- append_cons.
    rewrite prefix_app; [done|]. clear. generalize (String a sub) as s.
    induction s as [|b s IH]; [done|]. rewrite prefix_cons, IH.
    by rewrite bool_decide_eq_true_2.
  - rewrite append_cons, contains_cons, IH. apply orb_true_r.
Qed.

(** The scan of [split] at a character where no separator starts, and at
    one where a separator starts. *)
Lemma split_scan_miss sep cur c s :
  String.prefix sep (String c s) = false ->
  split_scan sep 0 cur (String c s) = split_scan sep 0 (c :: cur) s.
Proof. intros Hpre. cbn [split_scan]. by rewrite Hpre. Qed.

Lemma split_scan_hit sep cur c s :
  String.prefix sep (String c s) = true ->
  split_scan sep 0 cur (String c s)
  = String.string_of_list_ascii (rev cur) :: split_scan sep (String.length sep - 1) [] s.
Proof. intros Hpre. cbn [split_scan]. by rewrite Hpre. Qed.

(** X7. Both [_extract_from_uri] methods give back the local name of a URI
    of the ODRL namespace, provided the name does not itself hold the text
    [odrl/2/]. *)
Theorem extract_from_uri_of_odrl_name (name : string) :
  contains "odrl/2/" name = false ->
  structure_extract_from_uri ("http://www.w3.org/ns/odrl/2/" +:+ name) = name
  /\ compatibility_extract_from_uri ("http://www.w3.org/ns/odrl/2/" +:+ name) = name.
Proof.
  intros Habsent.
  assert (Hin : contains "odrl/2/" ("http://www.w3.org/ns/odrl/2/" +:+ name) = true).
  { change "http://www.w3.org/ns/odrl/2/" with ("http://www.w3.org/ns/" +:+ "odrl/2/").
    rewrite append_assoc. by apply contains_intro. }
  assert (Hsplit : last_piece (split "odrl/2/" ("http://www.w3.org/ns/odrl/2/" +:+ name))
                   = name).
  { unfold split. repeat rewrite append_cons. rewrite append_nil_l.
    do 21 (rewrite split_scan_miss by reflexivity).
    rewrite split_scan_hit by (by destruct name).
    change (String.length "odrl/2/" - 1) with 6. cbn [split_scan].
    rewrite split_scan_absent by done. reflexivity. }
  unfold structure_extract_from_uri, compatibility_extract_from_uri.
  by rewrite Hin, Hsplit.
Qed.

(** X8. The operand registry and the functions around it agree.  No name
    is registered twice.  For every registered operand the URI is the ODRL
    namespace followed by the name, both [_extract_from_uri] methods recover
    the name from the URI, [get_operand] on the name returns the record, and
    the record allows at least one operator.  [get_operand] on any other
    name returns [None]. *)
Theorem operand_registry_round_trip :
  NoDup list_operands
  /\ Forall (fun entry =>
               uri entry.2 = "http://www.w3.org/ns/odrl/2/" +:+ entry.1
               /\ structure_extract_from_uri (uri entry.2) = entry.1
               /\ compatibility_extract_from_uri (uri entry.2) = entry.1
               /\ get_operand entry.1 = Some entry.2
               /\ compatible_operators entry.2 <> [])
            OPERANDS
  /\ (forall name, name ∉ list_operands -> get_operand name = None).
Proof.
  split; [by_computation|]. split.
  - unfold OPERANDS.
    repeat (apply Forall_cons; split;
            [repeat split; first [vm_compute; reflexivity | discriminate]|]).
    apply Forall_nil_2.
  - intros name Hout. unfold get_operand.
    destruct (List.find _ OPERANDS) as [[key info]|] eqn:Hfind; [|done].
    apply find_some in Hfind as [Hin Heq]. cbn in Heq.
    apply String.eqb_eq in Heq as ->. exfalso. apply Hout.
    apply list_elem_of_In in Hin. by apply (list_elem_of_fmap_2 fst) in Hin.
Qed.

(** The rule of a registered operand is in the shape text, and what the
    rule holds the shape text holds. *)
Lemma compatibility_rule_in_shape (name : string) (info : LeftOperandInfo) (sub : string) :
  (name, info) ∈ OPERANDS -> sub <> "" ->
  contains sub (compatibility_rule name info) = true ->
  contains sub (get_shape_ttl ConstraintCompatibilityValidator) = true.
Proof.
  intros Hin Hsub Hrule. cbn [get_shape_ttl ConstraintCompatibilityValidator].
  apply contains_app_r, contains_app_l; [done|].
  apply (contains_join _ _ (compatibility_rule name info)); [done| |done].
  by apply (list_elem_of_fmap_2
              (fun '(operand_name, operand_info) =>
                 compatibility_rule operand_name operand_info) _ (name, info)).
Qed.

(** X9. The rule that [get_shape_ttl] writes for a registered operand is
    read back by [process_violations].  The shape text holds the operand's
    message in quotes and, in the [FILTER] of the rule, the operand's
    compatible operators in the order in which the set is iterated; a
    violation with that message is explained with the operand's name and
    the same operators in the same order, never as an unknown operand; and
    these are the members of the operand's set. *)
Theorem compatibility_message_round_trip (name : string) (info : LeftOperandInfo)
    (v : violation) :
  (name, info) ∈ OPERANDS ->
  v !! "message" = Some ("Incompatible operator for " +:+ name) ->
  let operators := set_order (compatible_operators info) in
  contains (dquote +:+ "Incompatible operator for " +:+ name +:+ dquote)
    (get_shape_ttl ConstraintCompatibilityValidator) = true
  /\ contains ("FILTER (?operator NOT IN ("
               +:+ join " " (map (fun op => "odrl:" +:+ operator_value op) operators)
               +:+ "))")
       (get_shape_ttl ConstraintCompatibilityValidator) = true
  /\ constraint_violated (compatibility_issue v)
     = "Operator '" +:+ compatibility_extract_from_uri (get v "value" "")
       +:+ "' not compatible with leftOperand '" +:+ name +:+ "'. Valid: "
       +:+ join ", " (map operator_value operators)
  /\ operators ≡ₚ compatible_operators info.
Proof.
  intros Hin Hmessage. cbv zeta. split; [|split; [|split]].
  - apply (compatibility_rule_in_shape name info); [done | by cbv |].
    unfold compatibility_rule. cbv zeta. do 7 apply contains_app_r.
    rewrite <- !append_assoc. apply contains_self_app. by cbv.
  - apply (compatibility_rule_in_shape name info); [done | by cbv |].
    unfold compatibility_rule. cbv zeta. do 4 apply contains_app_r.
    match goal with
    | |- contains _ (?before +:+ _ +:+ ?after +:+ _) = true =>
        change before
          with (String.substring 0 (String.length before - 26) before
                +:+ "FILTER (?operator NOT IN (");
        change after with ("))" +:+ String.substring 2 (String.length after - 2) after)
    end.
    rewrite (append_assoc _ "FILTER (?operator NOT IN ("), (append_assoc "))").
    apply contains_app_r.
    match goal with
    | |- contains _ (_ +:+ _ +:+ _ +:+ ?rest) = true => generalize rest
    end.
    intros rest.
    rewrite <- !append_assoc. apply contains_self_app. by cbv.
  - unfold compatibility_issue, get. rewrite Hmessage.
    cbn [default constraint_violated].
    generalize (default "" (v !! "value")) as operator. intros operator.
    unfold OPERANDS in Hin.
    repeat (apply elem_of_cons in Hin as [[= -> ->]|Hin]; [vm_compute; reflexivity|]).
    by apply elem_of_nil in Hin.
  - apply set_order_members.
Qed.

End ToolNames.

Section ToolNamesExamples.
Import PyStr ValidationTool ODRLLeftOperands.

(** X7 at the name [isAnyOf]. *)
Lemma extract_from_uri_of_odrl_name_witness :
  structure_extract_from_uri ("http://www.w3.org/ns/odrl/2/" +:+ "isAnyOf") = "isAnyOf"
  /\ compatibility_extract_from_uri ("http://www.w3.org/ns/odrl/2/" +:+ "isAnyOf") = "isAnyOf".
Proof. apply (extract_from_uri_of_odrl_name "isAnyOf"). reflexivity. Defined.

(** X9 at the operand [count] and a violation on the operator [isAnyOf],
    in a process that iterates the sets in the order of their literals. *)
Lemma compatibility_message_round_trip_witness :
  let v : violation :=
    {[ "message" := "Incompatible operator for count";
       "value" := "http://www.w3.org/ns/odrl/2/isAnyOf" ]} in
  let operators := [LT; LTEQ; GT; GTEQ; EQ] in
  contains (dquote +:+ "Incompatible operator for " +:+ "count" +:+ dquote)
    (get_shape_ttl (ConstraintCompatibilityValidator (O := Scripted.literal_order))) = true
  /\ contains ("FILTER (?operator NOT IN ("
               +:+ join " " (map (fun op => "odrl:" +:+ operator_value op) operators)
               +:+ "))")
       (get_shape_ttl (ConstraintCompatibilityValidator (O := Scripted.literal_order))) = true
  /\ constraint_violated (compatibility_issue (O := Scripted.literal_order) v)
     = "Operator '" +:+ compatibility_extract_from_uri (get v "value" "")
       +:+ "' not compatible with leftOperand '" +:+ "count" +:+ "'. Valid: "
       +:+ join ", " (map operator_value operators)
  /\ operators ≡ₚ [LT; LTEQ; GT; GTEQ; EQ].
Proof.
  cbv zeta.
  apply (compatibility_message_round_trip (O := Scripted.literal_order) "count"
           {| uri := "http://www.w3.org/ns/odrl/2/count";
              label := "Count";
              definition := "Numeric count of executions";
              compatible_operators := [LT; LTEQ; GT; GTEQ; EQ];
              expected_datatype := Some "xsd:integer" |}).
  - unfold OPERANDS. right. left.
  - vm_compute. reflexivity.
Defined.

End ToolNamesExamples.

(** ** Cleaning the model's answer *)

Section CleanTurtle.
Import PyStr Agent.

(** *** Fences *)

(** After [re.sub] of the fence of three backquotes nothing of the kind is
    left.  The output never starts with more backquotes than the input: a
    backquote is only let through where no fence starts. *)
Lemma sub_fence_backquotes (s : string) :
  (forall skip ws, contains "```" (sub_fence "```" skip ws s) = false)
  /\ (String.prefix "`" (sub_fence "```" 0 false s) = true -> String.prefix "`" s = true)
  /\ (String.prefix "``" (sub_fence "```" 0 false s) = true -> String.prefix "``" s = true).
Proof.
  induction s as [|c s (IHnone & IHone & IHtwo)]; [by split; [intros [|?] ?|]|].
  assert (Hstep : forall ws, contains "```" (sub_fence "```" 0 ws (String c s)) = false).
  { intros ws. cbn [sub_fence].
    destruct (String.prefix "```" (String c s)) eqn:Hfence; [apply IHnone|].
    destruct (if ws then space_width (String c s) else 0) as [|k]; [|apply IHnone].
    rewrite contains_cons, IHnone, orb_false_r.
    destruct (String.prefix "```" (String c (sub_fence "```" 0 false s))) eqn:Hout; [|done].
    rewrite <- Hfence. rewrite !prefix_cons in *.
    apply andb_true_iff in Hout as [-> Hout]. cbn [andb]. symmetry.
    change (String.prefix "``" s = true). by apply IHtwo. }
  split; [intros [|skip] ws; [apply Hstep | cbn [sub_fence]; apply IHnone]|].
  cbn [sub_fence]. destruct (String.prefix "```" (String c s)) eqn:Hfence.
  - rewrite !prefix_cons in Hfence.
    apply andb_true_iff in Hfence as [Hc Hfence]. cbn [andb] in *.
    split; intros _; rewrite !prefix_cons, Hc; cbn [andb]; [by destruct s|].
    destruct s as [|d s]; [done|]. rewrite !prefix_cons in *.
    apply andb_true_iff in Hfence as [-> _]. by destruct s.
  - cbn [andb]. split; rewrite !prefix_cons.
    + intros [-> _]%andb_true_iff. by destruct s.
    + intros [-> Hone]%andb_true_iff. cbn [andb]. by apply IHone.
Qed.

(** *** Lines *)

(** [split] never returns the empty list. *)
Lemma split_scan_nonempty sep skip cur s : split_scan sep skip cur s <> [].
Proof.
  revert skip cur. induction s as [|c s IH]; intros skip cur; cbn [split_scan]; [done|].
  destruct skip; [|apply IH]. destruct (String.prefix sep (String c s)); [done | apply IH].
Qed.

(** [split] on the newline, then [join]: the text is back. *)
Lemma join_split_newline cur s :
  join nl (split_scan nl 0 cur s) = String.string_of_list_ascii (rev cur) +:+ s.
Proof.
  revert cur. induction s as [|c s IH]; intros cur; cbn [split_scan].
  - by rewrite append_nil_r.
  - destruct (String.prefix nl (String c s)) eqn:Hnl.
    + change (String.length nl - 1) with 0.
      unfold nl in Hnl. rewrite prefix_cons in Hnl.
      apply andb_true_iff in Hnl as [Hc _]. apply bool_decide_eq_true_1 in Hc as <-.
      rewrite join_cons by apply split_scan_nonempty. by rewrite IH.
    + rewrite IH. cbn [rev]. by rewrite string_of_list_ascii_app, append_assoc.
Qed.

(** Dropping lines from the front leaves a suffix of the text. *)
Lemma drop_lines_suffix k cur s :
  exists p, String.string_of_list_ascii (rev cur) +:+ s
            = p +:+ join nl (drop k (split_scan nl 0 cur s)).
Proof.
  revert k cur. induction s as [|c s IH]; intros k cur; cbn [split_scan].
  - destruct k; [exists ""; by rewrite append_nil_r|].
    exists (String.string_of_list_ascii (rev cur)). cbn [drop]. by rewrite drop_nil.
  - destruct (String.prefix nl (String c s)) eqn:Hnl.
    + change (String.length nl - 1) with 0. destruct k as [|k].
      * exists "". rewrite drop_0, append_nil_l.
        pose proof (join_split_newline cur (String c s)) as Hjoin.
        cbn [split_scan] in Hjoin. rewrite Hnl in Hjoin.
        change (String.length nl - 1) with 0 in Hjoin. by rewrite Hjoin.
      * cbn [drop]. destruct (IH k []) as [p Hp]. cbn [rev] in Hp.
        rewrite append_nil_l in Hp.
        exists (String.string_of_list_ascii (rev cur) +:+ String c p).
        by rewrite append_assoc, append_cons, <- Hp.
    + destruct (IH k (c :: cur)) as [p Hp]. exists p. rewrite <- Hp. cbn [rev].
      by rewrite string_of_list_ascii_app, append_assoc.
Qed.

(** *** Prefixes *)

Lemma prefix_split p s : String.prefix p s = true -> exists r, s = p +:+ r.
Proof.
  revert s. induction p as [|a p IH]; intros s; [by exists s|].
  destruct s as [|b s]; [done|]. rewrite prefix_cons.
  intros [->%bool_decide_eq_true_1 Hp]%andb_true_iff.
  destruct (IH _ Hp) as [r ->]. by exists r.
Qed.

Lemma prefix_shorter a b s : String.prefix (a +:+ b) s = true -> String.prefix a s = true.
Proof.
  revert s. induction a as [|x a IH]; intros s; [by destruct s|].
  destruct s as [|y s]; [done|]. rewrite append_cons, !prefix_cons.
  intros [-> Hp]%andb_true_iff. cbn [andb]. by apply IH.
Qed.

(** *** White space *)

(** A white-space character at the head of a text is one at the head of
    every extension of the text. *)
Lemma space_width_app s t k : space_width s = S k -> space_width (s +:+ t) = S k.
Proof.
  destruct s as [|c1 [|c2 [|c3 s]]]; [done|..];
    rewrite ?append_cons, ?append_nil_l; unfold space_width; cbv zeta;
    repeat match goal with |- context [if ?b then _ else _] => destruct b end; done.
Qed.

Lemma space_here_app skip s t k :
  space_here skip s = S k -> space_here skip (s +:+ t) = S k.
Proof. destruct skip; [apply space_width_app | done]. Qed.

Lemma lstrip_scan_suffix skip s : exists p, s = p +:+ lstrip_scan skip s.
Proof.
  revert skip. induction s as [|c s IH]; intros skip; [by exists ""|]. cbn [lstrip_scan].
  destruct (space_here skip (String c s)) as [|k]; [by exists ""|].
  destruct (IH k) as [p Hp]. exists (String c p). by rewrite append_cons, <- Hp.
Qed.

Lemma lstrip_suffix s : exists p, s = p +:+ lstrip s.
Proof. apply lstrip_scan_suffix. Qed.

(** What [lstrip] leaves does not start with white space. *)
Lemma lstrip_scan_head skip s : space_width (lstrip_scan skip s) = 0.
Proof.
  revert skip. induction s as [|c s IH]; intros skip; [done|]. cbn [lstrip_scan].
  destruct (space_here skip (String c s)) as [|k] eqn:Hhere; [|apply IH].
  by destruct skip.
Qed.

(** [lstrip] of a text that goes on after a line starting with [@]. *)
Lemma lstrip_scan_app skip m t :
  String.prefix "@" (lstrip_scan skip m) = true ->
  lstrip_scan skip (m +:+ t) = lstrip_scan skip m +:+ t.
Proof.
  revert skip. induction m as [|c m IH]; intros skip; [done|].
  rewrite append_cons. cbn [lstrip_scan].
  destruct (space_here skip (String c m)) as [|k] eqn:Hhere.
  - rewrite prefix_cons. intros [Hc _]%andb_true_iff.
    apply bool_decide_eq_true_1 in Hc as <-.
    destruct skip; [|done]. cbn [space_here].
    change (space_width (String _ (m +:+ t))) with 0. by rewrite append_cons.
  - intros Hat.
    assert (Hmore : space_here skip (String c (m +:+ t)) = S k)
      by (rewrite <- append_cons; by apply space_here_app).
    rewrite Hmore. by apply IH.
Qed.

(** What [rstrip] cuts off is white space. *)
Lemma rstrip_prefix s : exists t, s = rstrip s +:+ t /\ all_space 0 t = true.
Proof.
  induction s as [|c s (t & IH & Ht)]; [by exists ""|]. cbn [rstrip].
  destruct (all_space 0 (String c s)) eqn:Hall.
  - exists (String c s). by rewrite append_nil_l.
  - exists t. by rewrite append_cons, <- IH.
Qed.

Lemma all_space_app skip a b :
  all_space skip a = true -> all_space 0 b = true -> all_space skip (a +:+ b) = true.
Proof.
  revert skip. induction a as [|c a IH]; intros skip Ha Hb.
  - destruct skip; [by rewrite append_nil_l | done].
  - rewrite append_cons. cbn [all_space] in *.
    destruct (space_here skip (String c a)) as [|k] eqn:Hhere; [done|].
    assert (Hmore : space_here skip (String c (a +:+ b)) = S k)
      by (rewrite <- append_cons; by apply space_here_app).
    rewrite Hmore. by apply IH.
Qed.

(** [rstrip] keeps a character that starts no white space. *)
Lemma rstrip_head c s :
  space_width (String c s) = 0 -> rstrip (String c s) = String c (rstrip s).
Proof. intros Hc. cbn [rstrip all_space space_here]. by rewrite Hc. Qed.

Lemma rstrip_at_prefix s :
  String.prefix "@prefix" s = true -> String.prefix "@prefix" (rstrip s) = true.
Proof.
  intros [r ->]%prefix_split. repeat rewrite append_cons. rewrite append_nil_l.
  do 7 (rewrite rstrip_head by reflexivity). rewrite !prefix_cons.
  by destruct (rstrip r).
Qed.

(** [strip] of a stripped text. *)
Lemma rstrip_idemp s : rstrip (rstrip s) = rstrip s.
Proof.
  induction s as [|c s IH]; [done|]. cbn [rstrip].
  destruct (all_space 0 (String c s)) eqn:Hall; [done|]. cbn [rstrip]. rewrite IH.
  destruct (all_space 0 (String c (rstrip s))) eqn:Hcut; [|done].
  destruct (rstrip_prefix s) as (t & Hs & Ht).
  pose proof (all_space_app 0 _ _ Hcut Ht) as Hwhole.
  rewrite append_cons, <- Hs in Hwhole. congruence.
Qed.

Lemma lstrip_rstrip_lstrip s : lstrip (rstrip (lstrip s)) = rstrip (lstrip s).
Proof.
  pose proof (lstrip_scan_head 0 s) as Hhead. fold (lstrip s) in Hhead.
  destruct (rstrip_prefix (lstrip s)) as (t & Hs & _).
  destruct (rstrip (lstrip s)) as [|c r]; [done|].
  unfold lstrip at 1. cbn [lstrip_scan space_here].
  destruct (space_width (String c r)) as [|k] eqn:Hw; [done|].
  apply (space_width_app _ t) in Hw. rewrite <- Hs in Hw. congruence.
Qed.

Lemma strip_idemp s : strip (strip s) = strip s.
Proof. unfold strip. by rewrite lstrip_rstrip_lstrip, rstrip_idemp. Qed.

(** No fence is left in the cleaned text, and it is stripped. *)
Lemma clean_turtle_has_no_fence_aux (content : string) :
  contains "```" (_clean_turtle content) = false.
Proof.
  unfold _clean_turtle, strip.
  set (text := sub_fence "```" 0 false (sub_fence "```turtle" 0 false content)).
  set (k := default 0 _).
  assert (Htext : contains "```" text = false) by apply sub_fence_backquotes.
  destruct (drop_lines_suffix k [] text) as [p Hp]. cbn [rev] in Hp.
  rewrite append_nil_l in Hp. unfold split. rewrite Hp in Htext.
  apply contains_suffix in Htext.
  destruct (lstrip_suffix (join nl (drop k (split_scan nl 0 [] text)))) as [q Hq].
  rewrite Hq in Htext. apply contains_suffix in Htext.
  destruct (rstrip_prefix (lstrip (join nl (drop k (split_scan nl 0 [] text)))))
    as (t & Ht & _).
  rewrite Ht in Htext. by apply contains_prefix in Htext.
Qed.

Lemma clean_turtle_is_stripped_aux (content : string) :
  strip (_clean_turtle content) = _clean_turtle content.
Proof. unfold _clean_turtle. apply strip_idemp. Qed.

(** X10. The text that [_clean_turtle] returns holds no Markdown fence, the
    three backquotes do not occur in it, and it is stripped: stripping it
    again changes nothing, so it neither starts nor ends with white
    space. *)
Theorem clean_turtle_no_fence_and_stripped (content : string) :
  contains "```" (_clean_turtle content) = false
  /\ strip (_clean_turtle content) = _clean_turtle content.
Proof.
  split; [apply clean_turtle_has_no_fence_aux | apply clean_turtle_is_stripped_aux].
Qed.

(** X11. When a line of the answer, once its fences are removed, starts
    with [@prefix] after white space, the text that [_clean_turtle] returns
    starts with [@prefix]: what came before the first such line is
    dropped. *)
Theorem clean_turtle_starts_at_prefix (content line : string) :
  line ∈ split nl (sub_fence "```" 0 false (sub_fence "```turtle" 0 false content)) ->
  String.prefix "@prefix" (strip line) = true ->
  String.prefix "@prefix" (_clean_turtle content) = true.
Proof.
  intros Hline Hprefix. unfold _clean_turtle.
  set (lines := split nl (sub_fence "```" 0 false (sub_fence "```turtle" 0 false content))) in *.
  destruct (list_find (fun l => String.prefix "@prefix" (strip l) = true) lines)
    as [[i first]|] eqn:Hfind.
  - apply list_find_Some in Hfind as (Hi & Hfirst & _).
    change (default 0 (fst <$> Some (i, first))) with i.
    rewrite (drop_S _ _ _ Hi).
    assert (Hjoin : exists tail, join nl (first :: drop (S i) lines) = first +:+ tail).
    { destruct (drop (S i) lines) as [|l ls] eqn:Hrest.
      - exists "". by rewrite append_nil_r.
      - rewrite join_cons by done. eauto. }
    destruct Hjoin as [tail ->]. unfold strip in *.
    assert (Hleft : String.prefix "@prefix" (lstrip first) = true).
    { destruct (rstrip_prefix (lstrip first)) as (t & -> & _). by apply prefix_app. }
    unfold lstrip in *.
    rewrite lstrip_scan_app by (by apply (prefix_shorter "@" "prefix")).
    by apply rstrip_at_prefix, prefix_app.
  - apply list_find_None in Hfind. rewrite Forall_forall in Hfind.
    by destruct (Hfind _ Hline).
Qed.

(** *** A clean document is left as it is *)

Lemma contains_longer a b s : contains a s = false -> contains (a +:+ b) s = false.
Proof.
  induction s as [|c s IH].
  - destruct a; [done|]. by rewrite append_cons.
  - rewrite !contains_cons. intros [Hp Hs]%orb_false_iff. rewrite IH by done.
    destruct (String.prefix (a +:+ b) (String c s)) eqn:Hlong; [|done].
    apply prefix_shorter in Hlong. congruence.
Qed.

(** [re.sub] of a fence that does not occur changes nothing. *)
Lemma sub_fence_absent fence s :
  contains fence s = false -> sub_fence fence 0 false s = s.
Proof.
  induction s as [|c s IH]; [done|]. rewrite contains_cons.
  intros [Hp Hs]%orb_false_iff. cbn [sub_fence]. rewrite Hp. by rewrite IH.
Qed.

(** The first piece of [split] starts with what was read before. *)
Lemma split_scan_head sep cur s :
  exists x xs, split_scan sep 0 cur s = (String.string_of_list_ascii (rev cur) +:+ x) :: xs.
Proof.
  revert cur. induction s as [|c s IH]; intros cur; cbn [split_scan].
  - exists "", []. by rewrite append_nil_r.
  - destruct (String.prefix sep (String c s)).
    + eexists "", _. by rewrite append_nil_r.
    + destruct (IH (c :: cur)) as (x & xs & ->). exists (String c x), xs. cbn [rev].
      by rewrite string_of_list_ascii_app, append_assoc.
Qed.

(** X12. [_clean_turtle] leaves a clean document as it is: a text without
    fence that is stripped and starts with [@prefix] is returned unchanged.
    Cleaning is therefore idempotent on every answer whose cleaned text
    starts with [@prefix]. *)
Theorem clean_turtle_fixed_point :
  (forall text,
      contains "```" text = false -> strip text = text ->
      String.prefix "@prefix" text = true ->
      _clean_turtle text = text)
  /\ (forall content,
        String.prefix "@prefix" (_clean_turtle content) = true ->
        _clean_turtle (_clean_turtle content) = _clean_turtle content).
Proof.
  assert (Hfixed : forall text,
            contains "```" text = false -> strip text = text ->
            String.prefix "@prefix" text = true -> _clean_turtle text = text).
  { intros text Hfence Hstrip Hprefix. unfold _clean_turtle.
    rewrite (sub_fence_absent "```turtle") by (by apply (contains_longer "```" "turtle")).
    rewrite (sub_fence_absent "```") by done.
    assert (Hfirst : exists first rest,
              split nl text = first :: rest
              /\ String.prefix "@prefix" (strip first) = true).
    { destruct (prefix_split _ _ Hprefix) as [r ->]. unfold split.
      repeat rewrite append_cons. rewrite append_nil_l.
      do 7 (rewrite split_scan_miss by reflexivity).
      destruct (split_scan_head nl
                  (rev (String.list_ascii_of_string "@prefix")) r) as (x & xs & Hsplit).
      cbn in Hsplit. cbn. rewrite Hsplit. eexists _, _. split; [reflexivity|].
      unfold strip.
      change (lstrip ("@prefix" +:+ x)) with ("@prefix" +:+ x).
      apply rstrip_at_prefix. by apply (prefix_app "@prefix" "@prefix"). }
    destruct Hfirst as (first & rest & Hsplit & Hfirst).
    assert (Hfind : list_find (fun l => String.prefix "@prefix" (strip l) = true)
                      (split nl text) = Some (0, first)).
    { rewrite Hsplit. cbn. by rewrite decide_True. }
    rewrite Hfind. change (default 0 (fst <$> Some (0, first))) with 0. rewrite drop_0.
    unfold split. rewrite join_split_newline. cbn [rev]. by rewrite append_nil_l. }
  split; [exact Hfixed|].
  intros content Hprefix. apply Hfixed; [|apply clean_turtle_is_stripped_aux|done].
  apply clean_turtle_has_no_fence_aux.
Qed.

End CleanTurtle.

(** ** The prompt of a conflict type *)

Section Prompts.
Import PyStr ConflictTypes ConflictPrompts.

(** X13. The lookup of a member by its value inverts [value]: every member
    is found again from its value, so no two members share a value; a text
    that is found is the value of the member returned; and a text that is no
    member's value is not found (Python raises [ValueError]). *)
Theorem conflict_type_value_round_trip :
  (forall c, ConflictType_of_value (value c) = Some c)
  /\ (forall text c, ConflictType_of_value text = Some c -> value c = text)
  /\ (forall text, text ∉ map value members -> ConflictType_of_value text = None).
Proof.
  split; [by intros []|]. unfold ConflictType_of_value. split.
  - intros text c [_ Heq]%find_some. by apply String.eqb_eq.
  - intros text Hout.
    destruct (List.find _ members) as [c|] eqn:Hfind; [|done].
    apply find_some in Hfind as [Hin Heq]. apply String.eqb_eq in Heq as <-.
    exfalso. apply Hout. apply list_elem_of_In in Hin.
    by apply (list_elem_of_fmap_2 value).
Qed.

(** X14. [get_detection_prompt_for_conflict_type] raises [StopIteration]
    for exactly the six members that have no entry in [CONFLICT_STRATEGIES],
    and returns a prompt for the other eight.  Two of the eight entries name
    a resolution principle that is no key of [RESOLUTION_PRINCIPLES]
    ([flag_as_inactive] of [TEMPORAL_EXPIRED] and [prohibit_on_conflict] of
    [ACTION_HIERARCHY]), so their prompts hold no principle text; one,
    [TEMPORAL_EXPIRED], has no example, so its prompt says [N/A].  Every
    example is filed under the conflict type it names. *)
Theorem detection_prompt_fallbacks :
  (forall c, get_detection_prompt_for_conflict_type c = None
     <-> c ∈ [ SPATIAL_OVERLAP; TEMPORAL_IMPOSSIBLE; ACTION_SUBSUMPTION;
               ACTION_CONFLICT; WORKFLOW_CYCLE; PARTY_INCONSISTENCY ])
  /\ (forall s, s ∈ CONFLICT_STRATEGIES ->
        (RESOLUTION_PRINCIPLES !! resolution_principle s = None
         <-> conflict_type s ∈ [TEMPORAL_EXPIRED; ACTION_HIERARCHY]))
  /\ (forall s, s ∈ CONFLICT_STRATEGIES ->
        (example_of (conflict_type s) = None <-> conflict_type s = TEMPORAL_EXPIRED))
  /\ (forall c prompt, get_detection_prompt_for_conflict_type c = Some prompt ->
        (contains "Conflict: N/A" prompt = true <-> c = TEMPORAL_EXPIRED))
  /\ Forall (fun kv => detected_conflict kv.2 = kv.1) CONFLICT_EXAMPLES.
Proof.
  split; [|split; [|split; [|split]]].
  - intros c. unfold get_detection_prompt_for_conflict_type.
    destruct c; cbn [strategy_lookup]; split; intros H;
      first [ by_computation
            | vm_compute in H; discriminate H
            | exfalso; revert H; by_computation
            | reflexivity ].
  - intros s Hin. unfold CONFLICT_STRATEGIES in Hin.
    repeat (apply elem_of_cons in Hin as [->|Hin];
            [cbn [resolution_principle conflict_type]; split; intros H;
             first [ by_computation
                   | vm_compute in H; discriminate H
                   | exfalso; revert H; by_computation ]|]).
    by apply elem_of_nil in Hin.
  - intros s Hin. unfold CONFLICT_STRATEGIES in Hin.
    repeat (apply elem_of_cons in Hin as [->|Hin];
            [cbn [conflict_type]; split; intros H;
             first [ reflexivity
                   | vm_compute in H; discriminate H ]|]).
    by apply elem_of_nil in Hin.
  - intros c prompt. destruct c; intros Hprompt; vm_compute in Hprompt;
      first [discriminate Hprompt | injection Hprompt as <-];
      split; intros H; first [reflexivity | discriminate H | vm_compute in H; discriminate H].
  - unfold CONFLICT_EXAMPLES. repeat (apply Forall_cons; split; [reflexivity|]).
    apply Forall_nil_2.
Qed.

End Prompts.

(** ** Examples for the sessions and the cleaning *)

Section SessionExamples.
Import PyStr ValidationTool Agent Scripted.

(** X4 at the session on [policy_without_uid] with a model that has no
    answer: the first pass reports the missing [odrl:uid], the call of the
    model fails, and the session raises that failure. *)
Lemma transducer_error_ends_session_witness :
  let rw := validate_kg (C := collaborators (missing_uid policy_without_uid))
              (validator_tool agent) "policy" policy_without_uid [] in
  let prompt := ODRL_REGENERATION_PROMPT "2025-01-01" (to_learning_prompt rw.1) in
  validate_and_regenerate (C := collaborators (missing_uid policy_without_uid)) agent
    "policy" policy_without_uid 3 (start [])
  = (Raised (TransducerError "no answer left"),
     {| world := [];
        trace := [EvValidate policy_without_uid; EvInvoke prompt] |}).
Proof.
  cbv zeta.
  apply (transducer_error_ends_session (C := collaborators (missing_uid policy_without_uid))
           agent "policy" policy_without_uid 3 (start [])
           (initial_vars policy_without_uid) (start []) "no answer left" []).
  - apply head_first.
  - cbn. lia.
  - vm_compute. discriminate.
  - reflexivity.
Defined.

(** X11 at an answer that wraps the document in a fence after a sentence of
    introduction. *)
Lemma clean_turtle_starts_at_prefix_witness :
  String.prefix "@prefix"
    (_clean_turtle "Here is the corrected policy:
```turtle
@prefix ex: <http://example.com/> .
ex:policy1 a ex:Policy .
```") = true.
Proof.
  apply (clean_turtle_starts_at_prefix _ "@prefix ex: <http://example.com/> .").
  - by_computation.
  - reflexivity.
Defined.

(** X12 at [conforming_policy], which [_clean_turtle] returns as it is. *)
Lemma clean_turtle_fixed_point_witness :
  _clean_turtle conforming_policy = conforming_policy.
Proof.
  apply (proj1 clean_turtle_fixed_point conforming_policy); vm_compute; reflexivity.
Defined.

End SessionExamples.

(** ** What the regeneration prompt shows *)

Section PromptContents.
Import PyStr ValidationTool Agent.
Context {World : Type} {C : Collaborators World}.

(** Every issue of a report is in the group of its type. *)
Lemma issue_in_its_group (self : ValidationReport) (issue : ValidationIssue) :
  issue ∈ issues self ->
  exists l, (issue_type issue, l) ∈ _group_issues_by_type self /\ issue ∈ l.
Proof.
  intros Hin. unfold _group_issues_by_type.
  destruct (group_fold_invariant (issues self) [] [])
    as (_ & Hgroups & Hkeys); [apply NoDup_nil_2 | by intros t l ?%elem_of_nil
                               | by intros i ?%elem_of_nil |].
  cbn [app] in *. apply Hkeys in Hin as Hkey.
  apply list_elem_of_fmap in Hkey as ([t l] & Ht & Hgroup). cbn [fst] in Ht. subst t.
  exists l. split; [done|]. destruct (Hgroups _ _ Hgroup) as [_ ->].
  by apply list_elem_of_filter.
Qed.

(** The lines that [to_learning_prompt] writes for an invalid report hold
    the heading of every issue's type and the lines of every issue. *)
Lemma learning_prompt_lines (self : ValidationReport) (issue : ValidationIssue) :
  is_valid self = false -> issue ∈ issues self ->
  exists lines i,
    to_learning_prompt self = join nl lines
    /\ ("### " +:+ issue_type issue) ∈ lines
    /\ (forall line, line ∈ issue_lines i issue -> line ∈ lines).
Proof.
  intros Hinvalid Hin. destruct (issue_in_its_group _ _ Hin) as (l & Hgroup & Hl).
  apply list_elem_of_lookup_1 in Hl as [i Hi].
  unfold to_learning_prompt. rewrite Hinvalid. eexists _, i. split; [reflexivity|].
  assert (Hblock : forall line,
            line ∈ ("### " +:+ issue_type issue) :: concat (imap issue_lines l) ->
            line ∈ concat (map (fun '(t, type_issues) =>
                                  ("### " +:+ t) :: concat (imap issue_lines type_issues))
                             (_group_issues_by_type self))).
  { intros line Hline. eapply elem_of_concat; [exact Hline|].
    by apply (list_elem_of_fmap_2
                (fun '(t, type_issues) =>
                   ("### " +:+ t) :: concat (imap issue_lines type_issues))
                _ (issue_type issue, l)). }
  split.
  - apply elem_of_app. right. apply elem_of_app. right. apply elem_of_app. left.
    apply Hblock. left.
  - intros line Hline.
    apply elem_of_app. right. apply elem_of_app. right. apply elem_of_app. left.
    apply Hblock. right. eapply elem_of_concat; [exact Hline|].
    by apply elem_of_lookup_imap_2.
Qed.

(** The prompt template puts the date and the learning prompt between fixed
    texts. *)
Lemma regeneration_prompt_parts (current_date learning_prompt : string) :
  exists head middle tail,
    ODRL_REGENERATION_PROMPT current_date learning_prompt
    = head +:+ ("**Current Date:** " +:+ current_date)
      +:+ middle +:+ learning_prompt +:+ tail.
Proof.
  unfold ODRL_REGENERATION_PROMPT.
  match goal with
  | |- exists head middle tail, _ +:+ (_ +:+ (?m +:+ (_ +:+ ?t))) = _ =>
      exists "
# ODRL SHACL VIOLATION FIXER

You are an expert at fixing W3C ODRL 2.2 compliance issues in Turtle format.

", m, t
  end.
  rewrite !append_assoc. reflexivity.
Qed.

(** X15. For a report that is not valid, [regenerate] calls the language
    model once: its outcome and state are those of [llm_invoke] on one
    prompt in the world it was entered in.  That prompt shows the current
    date and, for every issue of the report, the heading of its type and
    the lines of its node, its property, its value and the constraint it
    violates; an issue whose severity is not [Violation] has its severity
    line as well. *)
Theorem regeneration_prompt_shows_every_issue (self : ValidatorAgent)
    (vr : validation_result) (st : mstate World) (issue : ValidationIssue) :
  is_valid (validation_report vr) = false ->
  issue ∈ issues (validation_report vr) ->
  exists prompt,
    regenerate self vr st
    = (let st' w := {| world := w; trace := trace st ++ [EvInvoke prompt] |} in
       match llm_invoke prompt (world st) with
       | (inr response, w) =>
           (Returned {| rr_odrl_turtle := _clean_turtle response;
                        regenerated := true;
                        original_issues :=
                          Some (map issue_dict (issues (validation_report vr))) |}, st' w)
       | (inl e, w) => (Raised (TransducerError e), st' w)
       end)
    /\ contains ("**Current Date:** " +:+ utc_today (world st)) prompt = true
    /\ contains ("### " +:+ issue_type issue) prompt = true
    /\ contains ("**Node**: `" +:+ focus_node issue +:+ "`") prompt = true
    /\ contains ("**Property**: `" +:+ property_path issue +:+ "`") prompt = true
    /\ contains ("**Current Value**: `" +:+ actual_value issue +:+ "`") prompt = true
    /\ contains ("**Constraint Violated**: " +:+ constraint_violated issue) prompt = true
    /\ (severity issue <> "Violation" ->
        contains ("**Severity**: " +:+ severity issue) prompt = true).
Proof.
  intros Hinvalid Hin.
  set (report := validation_report vr) in *.
  exists (ODRL_REGENERATION_PROMPT (utc_today (world st)) (to_learning_prompt report)).
  split; [by apply regenerate_run|].
  destruct (regeneration_prompt_parts (utc_today (world st)) (to_learning_prompt report))
    as (head & middle & tail & ->).
  split.
  { apply contains_app_r. by apply contains_self_app. }
  destruct (learning_prompt_lines _ _ Hinvalid Hin) as (lines & i & -> & Hheading & Hlines).
  assert (Hshown : forall sub line,
            sub <> "" -> line ∈ issue_lines i issue -> contains sub line = true ->
            contains sub (head +:+ ("**Current Date:** " +:+ utc_today (world st))
                          +:+ middle +:+ join nl lines +:+ tail) = true).
  { intros sub line Hsub Hline Hsubline. do 3 apply contains_app_r.
    apply contains_app_l; [done|]. eapply contains_join; [done | by apply Hlines | done]. }
  split.
  { do 3 apply contains_app_r. apply contains_app_l; [done|].
    eapply contains_join; [done | exact Hheading |].
    by apply contains_self. }
  unfold issue_lines in Hshown.
  split; [|split; [|split; [|split]]].
  - eapply Hshown; [done | left |].
    change (pretty (S i) +:+ ". **Node**: `" +:+ focus_node issue +:+ "`")
      with (pretty (S i) +:+ ". " +:+ ("**Node**: `" +:+ focus_node issue +:+ "`")).
    do 2 apply contains_app_r. by apply contains_self.
  - eapply Hshown; [done | right; left |].
    change ("   **Property**: `" +:+ property_path issue +:+ "`")
      with ("   " +:+ ("**Property**: `" +:+ property_path issue +:+ "`")).
    apply contains_app_r. by apply contains_self.
  - eapply Hshown; [done | do 2 right; left |].
    change ("   **Current Value**: `" +:+ actual_value issue +:+ "`")
      with ("   " +:+ ("**Current Value**: `" +:+ actual_value issue +:+ "`")).
    apply contains_app_r. by apply contains_self.
  - eapply Hshown; [done | do 3 right; left |].
    change ("   **Constraint Violated**: " +:+ constraint_violated issue)
      with ("   " +:+ ("**Constraint Violated**: " +:+ constraint_violated issue)).
    apply contains_app_r. by apply contains_self.
  - intros Hseverity. eapply Hshown; [done | |].
    + do 4 right. apply elem_of_app. left.
      destruct (String.eqb_spec (severity issue) "Violation") as [Heq|_]; [done | left].
    + change ("   **Severity**: " +:+ severity issue)
        with ("   " +:+ ("**Severity**: " +:+ severity issue)).
      apply contains_app_r. by apply contains_self.
Qed.

End PromptContents.

Section PromptExamples.
Import PyStr ValidationTool Agent Scripted.

(** X15 at the report of [policy_without_uid], whose one issue is the
    missing [odrl:uid], with a model that has one answer ready: the answer
    is taken, so the world is left empty. *)
Lemma regeneration_prompt_shows_every_issue_witness :
  let report :=
    (validate_kg (C := collaborators (missing_uid policy_without_uid))
       (validator_tool agent) "policy" policy_without_uid [inr conforming_policy]).1 in
  let vr := {| vr_is_valid := is_valid report; validation_report := report |} in
  exists prompt,
    regenerate (C := collaborators (missing_uid policy_without_uid)) agent vr
      (start [inr conforming_policy])
    = (Returned {| rr_odrl_turtle := _clean_turtle conforming_policy;
                   regenerated := true;
                   original_issues := Some (map issue_dict (issues report)) |},
       {| world := []; trace := [EvInvoke prompt] |})
    /\ contains ("**Current Date:** " +:+ "2025-01-01") prompt = true
    /\ contains ("### " +:+ "Missing Policy UID") prompt = true
    /\ contains ("**Node**: `" +:+ "http://example.com/policy1" +:+ "`") prompt = true
    /\ contains ("**Property**: `" +:+ "http://www.w3.org/ns/odrl/2/uid" +:+ "`") prompt = true
    /\ contains ("**Current Value**: `" +:+ "not specified" +:+ "`") prompt = true
    /\ contains ("**Constraint Violated**: "
                 +:+ "ODRL Policy must have exactly one odrl:uid property with an IRI value")
         prompt = true
    /\ ("Violation" <> "Violation" ->
        contains ("**Severity**: " +:+ "Violation") prompt = true).
Proof.
  cbv zeta.
  destruct (regeneration_prompt_shows_every_issue
              (C := collaborators (missing_uid policy_without_uid)) agent
              {| vr_is_valid := false;
                 validation_report :=
                   (validate_kg (C := collaborators (missing_uid policy_without_uid))
                      (validator_tool agent) "policy" policy_without_uid
                      [inr conforming_policy]).1 |}
              (start [inr conforming_policy])
              {| issue_type := "Missing Policy UID";
                 focus_node := "http://example.com/policy1";
                 property_path := "http://www.w3.org/ns/odrl/2/uid";
                 actual_value := "not specified";
                 constraint_violated :=
                   "ODRL Policy must have exactly one odrl:uid property with an IRI value";
                 severity := "Violation" |})
    as (prompt & Hrun & Hshown).
  - vm_compute. reflexivity.
  - by_computation.
  - exists prompt. split; [|exact Hshown].
    etransitivity; [exact Hrun | reflexivity].
Defined.

End PromptExamples.

(** ** The documents of a session *)

Section SessionDocuments.
Import PyStr ValidationTool Agent.
Context {World : Type} {C : Collaborators World}.

(** At every loop head the documents after the first, the current one
    included, are as [_clean_turtle] leaves a text: without fence and
    stripped. *)
Lemma loop_head_documents self policy_text max_attempts doc st0 v st :
  at_loop_head self policy_text max_attempts (initial_vars doc) st0 v st ->
  exists earlier,
    map ai_odrl_turtle (attempts_so_far v) ++ [odrl_turtle v] = doc :: earlier
    /\ Forall (fun text => contains "```" text = false /\ strip text = text) earlier.
Proof.
  induction 1 as [|v st v' st' _ IH Hle Hbody].
  { exists []. by split. }
  destruct IH as (earlier & Hdocs & Hclean).
  destruct (decide (issues (validate_kg (validator_tool self) policy_text
                              (odrl_turtle v) (world st)).1 = [])) as [Hnone|Hsome].
  { rewrite loop_body_valid in Hbody by done. discriminate. }
  destruct (decide (attempt v = max_attempts)) as [Hlast|Hmore].
  { rewrite loop_body_last in Hbody by done. discriminate. }
  rewrite loop_body_retry in Hbody by done. cbv zeta in Hbody.
  destruct (llm_invoke _ _) as [[e|response] w]; [discriminate|].
  injection Hbody as <- <-. cbn [attempts_so_far odrl_turtle].
  exists (earlier ++ [_clean_turtle response]). split.
  - rewrite map_app. cbn [map ai_odrl_turtle]. by rewrite Hdocs.
  - apply Forall_app. split; [done|]. apply Forall_singleton.
    split; [apply clean_turtle_has_no_fence_aux | apply clean_turtle_is_stripped_aux].
Qed.

(** X16. Only the caller's document enters a session as it is: in a returned
    result the documents of [all_attempts] are the caller's document
    followed by clean texts, without Markdown fence and stripped, and when
    the session took more than one attempt the document returned is
    clean. *)
Theorem regenerated_documents_are_clean (self : ValidatorAgent) (policy_text doc : string)
    (max_attempts : Z) (st0 : mstate World) :
  match (validate_and_regenerate self policy_text doc max_attempts st0).1 with
  | Returned r =>
      (exists later,
         map ai_odrl_turtle (all_attempts r) = doc :: later
         /\ Forall (fun text => contains "```" text = false /\ strip text = text) later)
      /\ (attempts r = 1%Z -> final_odrl r = doc)
      /\ ((1 < attempts r)%Z ->
          contains "```" (final_odrl r) = false /\ strip (final_odrl r) = final_odrl r)
  | _ => True
  end.
Proof.
  destruct (decide (0 < max_attempts)%Z) as [Hpos|Hle];
    [|by rewrite nonpositive_ceiling_raises by lia].
  unfold validate_and_regenerate, bind.
  destruct (while_loop_last_iteration self policy_text max_attempts (Z.to_nat max_attempts)
              (initial_vars doc) st0) as (v & st & Hhead & Hle & Hlast); [cbn; lia..|].
  destruct (loop_head_invariant _ _ _ _ _ _ _ Hhead) as (Hnum & _).
  destruct (loop_head_documents _ _ _ _ _ _ _ Hhead) as (later & Hdocs & Hclean).
  assert (Hrecords : forall info, ai_odrl_turtle info = odrl_turtle v ->
            exists later,
              map ai_odrl_turtle (attempts_so_far v ++ [info]) = doc :: later
              /\ Forall (fun text => contains "```" text = false /\ strip text = text) later).
  { intros info Hinfo. exists later. split; [|done].
    by rewrite map_app; cbn [map]; rewrite Hinfo. }
  assert (Hfirst : attempt v = 1%Z -> odrl_turtle v = doc).
  { intros Hone. destruct (attempts_so_far v); cbn in *; [congruence | lia]. }
  assert (Hlater : (1 < attempt v)%Z ->
            contains "```" (odrl_turtle v) = false /\ strip (odrl_turtle v) = odrl_turtle v).
  { intros Hmany.
    assert (Hin : odrl_turtle v ∈ later).
    { destruct (attempts_so_far v) as [|info infos] eqn:Hso_far; cbn in Hnum; [lia|].
      cbn [map] in Hdocs. injection Hdocs as _ <-. apply elem_of_app. right. left. }
    by apply (proj1 (Forall_forall _ _) Hclean). }
  destruct (decide (issues (validate_kg (validator_tool self) policy_text
                              (odrl_turtle v) (world st)).1 = [])) as [Hnone|Hsome].
  { rewrite loop_body_valid in Hlast by done. rewrite Hlast. cbn.
    split; [by apply Hrecords|]. done. }
  destruct (decide (attempt v = max_attempts)) as [Hend|Hmore].
  { rewrite loop_body_last in Hlast by done. cbv zeta in Hlast. rewrite Hlast.
    unfold after_loop. cbn. rewrite <- Hend.
    split; [by apply Hrecords|]. done. }
  rewrite loop_body_retry in Hlast by done. cbv zeta in Hlast.
  destruct (llm_invoke _ _) as [[e|response] w]; [|done].
  by rewrite Hlast.
Qed.

End SessionDocuments.
